(** * Missing-script scan: a shallow embedding of [temp_missing.py]

    The script walks a Unity project twice.  The first walk collects the
    guids declared by the [.cs.meta] sidecar files into the global set
    [script_guids]; the second walk reads every prefab, scene and asset
    file below [Assets], looks for [m_Script] bindings with a regular
    expression and records, per file, the first binding whose guid is not
    in [script_guids]; finally the records are printed in sorted order.

    Conventions of the embedding:
    - a Python [str] is a [string]; one [ascii] stands for one code point
      in the range U+0000..U+00FF, and the character tables below
      ([is_space], [lower_char], [upper_char]) are Python's Unicode tables
      restricted to that range;
    - a Python [set] is a [gset];
    - the two global sets and standard output form the [state] that the
      statements of the script thread through; exceptions are values of
      [exn], and an exception does not undo earlier mutations;
    - the file system is an input: what [os.walk] lists and what [open]
      and the reads on the handle deliver. *)

From Stdlib Require Import Ascii NArith.
From stdpp Require Import base option list sets gmap strings sorting.

Local Open Scope N_scope.

(** ** Python [str] methods used by the script *)

Module Py.

(** [str.isspace] on one character, for code points below 256: the
    controls TAB..CR and FS..US, the space, NEL and the no-break space. *)
Definition is_space (c : ascii) : bool :=
  let n := N_of_ascii c in
  ((9 <=? n) && (n <=? 13)) || ((28 <=? n) && (n <=? 32))
  || (n =? 133) || (n =? 160).

(** Simple lower-case mapping: A-Z and the Latin-1 capitals (all of
    U+00C0..U+00DE but the multiplication sign) move up by 32. *)
Definition lower_char (c : ascii) : ascii :=
  let n := N_of_ascii c in
  if ((65 <=? n) && (n <=? 90))
     || ((192 <=? n) && (n <=? 222) && negb (n =? 215))
  then ascii_of_N (n + 32) else c.

(** Simple upper-case mapping, for the letters whose capital is below 256. *)
Definition upper_char (c : ascii) : ascii :=
  let n := N_of_ascii c in
  if ((97 <=? n) && (n <=? 122))
     || ((224 <=? n) && (n <=? 254) && negb (n =? 247))
  then ascii_of_N (n - 32) else c.

(** [s.lower()] *)
Fixpoint lower (s : string) : string :=
  match s with
  | "" => ""
  | String c s' => String (lower_char c) (lower s')
  end.

(** [s.startswith(p)] *)
Fixpoint startswith (s p : string) {struct p} : bool :=
  match p, s with
  | "", _ => true
  | String a p', String c s' => if decide (a = c) then startswith s' p' else false
  | String _ _, "" => false
  end.

(** [s.endswith(x)]: [s] is [x], or the tail of [s] ends with [x]. *)
Fixpoint endswith (s x : string) : bool :=
  bool_decide (s = x) ||
  match s with
  | "" => false
  | String _ s' => endswith s' x
  end.

(** [s.endswith(xs)] for a tuple [xs] of suffixes. *)
Definition endswith_any (s : string) (xs : list string) : bool :=
  existsb (endswith s) xs.

(** [s.lstrip()] and [s.rstrip()] with no argument: white space goes. *)
Fixpoint lstrip (s : string) : string :=
  match s with
  | "" => ""
  | String c s' => if is_space c then lstrip s' else s
  end.

Fixpoint rstrip (s : string) : string :=
  match s with
  | "" => ""
  | String c s' =>
      match rstrip s' with
      | "" => if is_space c then "" else String c ""
      | r => String c r
      end
  end.

(** [s.strip()] *)
Definition strip (s : string) : string := rstrip (lstrip s).

(** [s.split(sep, 1)] for a one-character separator: the text before the
    first [sep] and the text after it, or [s] alone when [sep] is absent. *)
Fixpoint split_1 (sep : ascii) (s : string) : list string :=
  match s with
  | "" => [""]
  | String c s' =>
      if decide (c = sep) then [""; s']
      else match split_1 sep s' with
           | [] => []
           | h :: t => String c h :: t
           end
  end.

End Py.

(** ** The part of [re] that the pattern needs *)

Module Re.

(** One-character matchers: a literal, [\s], and a bracket set given by
    its ranges. *)
Inductive atom : Type :=
  | Lit (c : ascii)
  | Space
  | In (ranges : list (ascii * ascii)).

(** Pattern nodes: one atom, a greedy [a*], and a capturing group around
    a counted repetition, [(a{n})]. *)
Inductive node : Type :=
  | One (a : atom)
  | Star (a : atom)
  | GroupRepeat (a : atom) (n : nat).

(** A compiled pattern: its nodes and the [re.IGNORECASE] flag. *)
Record regex : Type := compile { nodes : list node; ignorecase : bool }.

Definition in_range (r : ascii * ascii) (c : ascii) : bool :=
  (N_of_ascii r.1 <=? N_of_ascii c) && (N_of_ascii c <=? N_of_ascii r.2).

(** With [IGNORECASE] a literal matches every character with the same
    lower-case form, and a set matches every character one of whose case
    variants lies in a range. *)
Definition atom_match (ic : bool) (a : atom) (c : ascii) : bool :=
  match a with
  | Lit x =>
      if ic then bool_decide (Py.lower_char x = Py.lower_char c)
      else bool_decide (x = c)
  | Space => Py.is_space c
  | In ranges =>
      existsb (fun r => in_range r c) ranges
      || (ic && existsb (fun r => in_range r (Py.lower_char c)
                                  || in_range r (Py.upper_char c)) ranges)
  end.

(** [a{n}] at the start of [s]: the [n] characters taken and the rest. *)
Fixpoint take_matching (ic : bool) (a : atom) (n : nat) (s : string)
  : option (string * string) :=
  match n with
  | O => Some ("", s)
  | S n' =>
      match s with
      | "" => None
      | String c s' =>
          if atom_match ic a c then
            match take_matching ic a n' s' with
            | Some (g, r) => Some (String c g, r)
            | None => None
            end
          else None
      end
  end.

(** Anchored match of a node list at the start of [s], by backtracking:
    the captured groups and the text after the match.  A star first takes
    as many characters as it can and gives them back one at a time. *)
Fixpoint match_here (ic : bool) (re : list node) (s : string) {struct re}
  : option (list string * string) :=
  match re with
  | [] => Some ([], s)
  | One a :: re' =>
      match s with
      | "" => None
      | String c s' => if atom_match ic a c then match_here ic re' s' else None
      end
  | Star a :: re' =>
      (fix star (s : string) : option (list string * string) :=
         match s with
         | "" => match_here ic re' s
         | String c s' =>
             if atom_match ic a c then
               match star s' with
               | Some r => Some r
               | None => match_here ic re' s
               end
             else match_here ic re' s
         end) s
  | GroupRepeat a n :: re' =>
      match take_matching ic a n s with
      | None => None
      | Some (g, s') =>
          match match_here ic re' s' with
          | Some (gs, r) => Some (g :: gs, r)
          | None => None
          end
      end
  end.

(** A match object: the captured groups, in order. *)
Record match_obj : Type := mk_match { groups : list string }.

(** [pattern.finditer(text)]: the matches from left to right, each search
    resuming where the previous match ended; an empty match is reported
    and the search moves on by one character. *)
Fixpoint finditer_from (fuel : nat) (re : regex) (s : string)
  : list match_obj :=
  match fuel with
  | O => []
  | S fuel' =>
      let advance :=
        match s with
        | "" => []
        | String _ s' => finditer_from fuel' re s'
        end in
      match match_here (ignorecase re) (nodes re) s with
      | Some (gs, rest) =>
          mk_match gs ::
            (if decide (String.length rest < String.length s)%nat
             then finditer_from fuel' re rest else advance)
      | None => advance
      end
  end.

Definition finditer (re : regex) (s : string) : list match_obj :=
  finditer_from (S (String.length s)) re s.

(** The literal characters of [s], one node each. *)
Definition lits (s : string) : list node :=
  (fun c => One (Lit c)) <$> String.list_ascii_of_string s.

End Re.

(** ** Exceptions, state and statements *)

(** The exceptions the script can meet: [OSError] (with its errno) from
    [open] and from reads, [IndexError] from a subscript or a group
    number out of range. *)
Inductive exn : Type :=
  | OSError (errno : N)
  | IndexError.

(** The module-level variables [script_guids] and [missing], and the lines
    printed so far. *)
Record state : Type := mk_state {
  script_guids : gset string;
  missing : gset (string * string);
  stdout : list string }.

(** A statement runs from a state to an outcome, a value or a raised
    exception, and the state it leaves behind. *)
Definition M (A : Type) : Type := state → (exn + A) * state.

Definition ret {A} (a : A) : M A := λ st, (inr a, st).

Definition raise {A} (e : exn) : M A := λ st, (inl e, st).

Definition bind {A B} (m : M A) (k : A → M B) : M B :=
  λ st, match m st with
        | (inl e, st') => (inl e, st')
        | (inr a, st') => k a st'
        end.

Declare Scope stmt_scope.
Delimit Scope stmt_scope with stmt.
Notation "x <- m ;; k" := (bind m (λ x, k))
  (at level 20, m at level 99, k at level 200, only parsing) : stmt_scope.
Notation "m ;; k" := (bind m (λ _, k))
  (at level 100, k at level 200, only parsing, right associativity) : stmt_scope.
Local Open Scope stmt_scope.

(** [try: body  except OSError: handler] *)
Definition try_except_OSError {A} (body handler : M A) : M A :=
  λ st, match body st with
        | (inl (OSError _), st') => handler st'
        | r => r
        end.

(** [l[i]] *)
Definition index {A} (l : list A) (i : nat) : M A :=
  match l !! i with
  | Some x => ret x
  | None => raise IndexError
  end.

(** [for x in xs: body x] for a body without [break]. *)
Fixpoint for_each {X} (xs : list X) (body : X → M unit) : M unit :=
  match xs with
  | [] => ret tt
  | x :: xs' => body x ;; for_each xs' body
  end.

Definition get_script_guids : M (gset string) := λ st, (inr (script_guids st), st).
Definition get_missing : M (gset (string * string)) := λ st, (inr (missing st), st).

(** [script_guids = v] and [missing = v] *)
Definition set_script_guids (v : gset string) : M unit :=
  λ st, (inr tt, mk_state v (missing st) (stdout st)).
Definition set_missing (v : gset (string * string)) : M unit :=
  λ st, (inr tt, mk_state (script_guids st) v (stdout st)).

(** [script_guids.add(g)] and [missing.add(r)] *)
Definition script_guids_add (g : string) : M unit :=
  λ st, (inr tt, mk_state ({[g]} ∪ script_guids st) (missing st) (stdout st)).
Definition missing_add (r : string * string) : M unit :=
  λ st, (inr tt, mk_state (script_guids st) ({[r]} ∪ missing st) (stdout st)).

(** [print(line)] *)
Definition print (line : string) : M unit :=
  λ st, (inr tt, mk_state (script_guids st) (missing st) (stdout st ++ [line])).

(** ** The operating system *)

(** An open text file is the sequence of what iterating it delivers: a
    line, or the errno of the [OSError] that the read raises there. *)
Definition handle : Type := list (N + string).

(** [os.walk top] lists triples [(dirpath, dirnames, filenames)];
    [open path] gives a handle or the errno of its [OSError]. *)
Record filesystem : Type := mk_fs {
  os_walk : string → list (string * list string * list string);
  os_open : string → N + handle }.

(** The two functions of [os.path] that the script calls; they differ
    between platforms and are left to the instance. *)
Class OsPath : Type := {
  join : string → string → string;
  relpath : string → string → string }.

(** [open(path, encoding='utf-8', errors='ignore')] *)
Definition open_ (fs : filesystem) (path : string) : M handle :=
  match os_open fs path with
  | inl e => raise (OSError e)
  | inr fh => ret fh
  end.

(** [fh.read()]: the whole text. *)
Fixpoint read (fh : handle) : M string :=
  match fh with
  | [] => ret ""
  | inl e :: _ => raise (OSError e)
  | inr line :: fh' => rest <- read fh' ;; ret (line +:+ rest)
  end.

(** [m.group(1)] *)
Definition group_1 (m : Re.match_obj) : M string := index (Re.groups m) 0.

(** Python's order on pairs of strings: by the first component, then by
    the second; strings compare by code points. *)
Definition tuple_le (x y : string * string) : Prop :=
  String.le x.1 y.1 ∧ (x.1 = y.1 → String.le x.2 y.2).

Global Instance tuple_le_dec : RelDecision tuple_le.
Proof. intros x y. unfold tuple_le. apply _. Defined.

(** [sorted(s)] for a set [s] of pairs. *)
Definition sorted (s : gset (string * string)) : list (string * string) :=
  merge_sort tuple_le (elements s).

(** ** The script *)

Section Script.

Context `{OsPath} (fs : filesystem).

Definition root : string := "P:\\PacBros".

(** Lines 12-15: the loop over the lines of one sidecar file.  The value
    returned is the part of the handle that the loop left unread. *)
Fixpoint collect_lines (fh : handle) : M handle :=
  match fh with
  | [] => ret []
  | inl e :: _ => raise (OSError e)
  | inr line :: fh' =>
      if Py.startswith line "guid: " then
        part <- index (Py.split_1 ":" line) 1 ;;
        script_guids_add (Py.strip part) ;;
        ret fh'
      else collect_lines fh'
  end.

(** Lines 10-17: one sidecar file, opened, searched and closed; an
    [OSError] on the way is dropped. *)
Definition collect_path (path : string) : M unit :=
  try_except_OSError
    (fh <- open_ fs path ;; collect_lines fh ;; ret tt)
    (ret tt).

(** Lines 7-17: the body of the inner loop of the first walk. *)
Definition collect_file (dirpath name : string) : M unit :=
  if negb (Py.endswith name ".cs.meta") then ret tt
  else
    let path := join dirpath name in
    collect_path path.

(** Lines 5-17. *)
Definition collector : M unit :=
  for_each (os_walk fs root)
    (λ '(dirpath, _, files), for_each files (collect_file dirpath)).

(** Line 18. *)
Definition pattern : Re.regex :=
  Re.compile
    (Re.lits "m_Script:" ++ [Re.Star Re.Space] ++
     Re.lits "{fileID:" ++ [Re.Star Re.Space] ++
     Re.lits "11500000," ++ [Re.Star Re.Space] ++
     Re.lits "guid:" ++ [Re.Star Re.Space] ++
     [Re.GroupRepeat (Re.In [("0", "9"); ("a", "f")]%char) 32])
    true.

Definition target_exts : list string := [".prefab"; ".unity"; ".asset"].

Definition assets_root : string := join root "Assets".

(** Lines 32-36: the loop over the matches of one asset file.  The value
    returned is the part of the iterator that the loop left unvisited. *)
Fixpoint check_matches (path : string) (ms : list Re.match_obj)
  : M (list Re.match_obj) :=
  match ms with
  | [] => ret []
  | m :: ms' =>
      g <- group_1 m ;;
      let guid := Py.lower g in
      guids <- get_script_guids ;;
      if decide (guid ∉ guids) then
        missing_add (relpath path root, guid) ;;
        ret ms'
      else check_matches path ms'
  end.

(** Lines 27-36: one asset file, read whole and searched.  The
    handler's [continue] is the [None] branch. *)
Definition scan_path (path : string) : M unit :=
  text <- try_except_OSError
            (fh <- open_ fs path ;; t <- read fh ;; ret (Some t))
            (ret None) ;;
  match text with
  | None => ret tt
  | Some text => check_matches path (Re.finditer pattern text) ;; ret tt
  end.

(** Lines 24-36: the body of the inner loop of the second walk. *)
Definition scan_file (dirpath name : string) : M unit :=
  if negb (Py.endswith_any (Py.lower name) target_exts) then ret tt
  else
    let path := join dirpath name in
    scan_path path.

(** Lines 22-36. *)
Definition scanner : M unit :=
  for_each (os_walk fs assets_root)
    (λ '(dirpath, _, files), for_each files (scan_file dirpath)).

(** Lines 37-41. *)
Definition reporter : M unit :=
  found <- get_missing ;;
  if decide (found ≠ ∅) then
    for_each (sorted found) (λ '(rel, guid), print (rel +:+ " -> " +:+ guid))
  else print "No missing scripts under Assets".

(** The whole script, from any state of the interpreter. *)
Definition main : M unit :=
  set_script_guids ∅ ;;
  collector ;;
  set_missing ∅ ;;
  scanner ;;
  reporter.

(** A run of the script in a fresh interpreter. *)
Definition run : (exn + unit) * state := main (mk_state ∅ ∅ []).

End Script.

(** * Vocabulary of the statements *)

(** Every character of [s] satisfies [P]. *)
Fixpoint all_chars (P : ascii → bool) (s : string) : bool :=
  match s with
  | "" => true
  | String c s' => P c && all_chars P s'
  end.

(** Some character of [s] satisfies [P]. *)
Fixpoint some_char (P : ascii → bool) (s : string) : bool :=
  match s with
  | "" => false
  | String c s' => P c || some_char P s'
  end.

(** The digits 0-9 and the letters a-f. *)
Definition is_lower_hex_digit (c : ascii) : bool :=
  let n := N_of_ascii c in
  ((48 <=? n) && (n <=? 57)) || ((97 <=? n) && (n <=? 102)).

(** The letters A-F. *)
Definition is_upper_hex_letter (c : ascii) : bool :=
  let n := N_of_ascii c in (65 <=? n) && (n <=? 70).

(** A hexadecimal digit in either case. *)
Definition is_hex_digit (c : ascii) : bool :=
  is_lower_hex_digit c || is_upper_hex_letter c.

(** A guid as the asset files write it: 32 hexadecimal digits. *)
Definition hex32 (g : string) : Prop :=
  String.length g = 32%nat ∧ all_chars is_hex_digit g = true.

(** A run of white space, possibly empty. *)
Definition white (w : string) : Prop := all_chars Py.is_space w = true.

(** The text [s] does not begin with a character that [a] accepts. *)
Definition stops (a : Re.atom) (ic : bool) (s : string) : Prop :=
  match s with
  | "" => True
  | String c _ => Re.atom_match ic a c = false
  end.

(** The reference record of an asset file, with the white space [w1] to
    [w4] after its first four tokens and the guid [g] as the fifth. *)
Definition script_ref (w1 w2 w3 w4 g : string) : string :=
  "m_Script:" +:+ w1 +:+ "{fileID:" +:+ w2 +:+ "11500000," +:+ w3 +:+
  "guid:" +:+ w4 +:+ g.

(** The files of a walk, each with the directory that lists it, in the
    order of the visit. *)
Definition walk_files (w : list (string * list string * list string))
  : list (string * string) :=
  w ≫= λ '(dirpath, _, files), (λ name, (dirpath, name)) <$> files.

(** Two file systems hold the same files: every [open] has the same
    outcome and delivers the same reads. *)
Definition same_files (fs1 fs2 : filesystem) : Prop :=
  ∀ path, os_open fs1 path = os_open fs2 path.

(** The lines of a handle all of whose reads succeed. *)
Definition readable (ls : list string) : handle := inr <$> ls.

(** No line of [ls] begins with the guid key. *)
Definition no_guid_line (ls : list string) : Prop :=
  Forall (λ l, Py.startswith l "guid: " = false) ls.

(** The file at [path] opens, and the first of its lines to begin with
    the guid key is read after successful reads only and declares [g]:
    the text after the first colon, trimmed. *)
Definition declares (fs : filesystem) (path g : string) : Prop :=
  ∃ pre x post,
    os_open fs path = inr (readable pre ++ inr ("guid: " +:+ x) :: post)
    ∧ no_guid_line pre
    ∧ g = Py.strip (" " +:+ x).

(** The state with [g] added to [script_guids], and with [r] added to
    [missing]. *)
Definition with_guid (g : string) (st : state) : state :=
  mk_state ({[g]} ∪ script_guids st) (missing st) (stdout st).
Definition with_missing (r : string * string) (st : state) : state :=
  mk_state (script_guids st) ({[r]} ∪ missing st) (stdout st).

(** The output line of one record. *)
Definition report_line (r : string * string) : string := r.1 +:+ " -> " +:+ r.2.

(** ** What the loops compute *)

(** The first line of a handle that begins with the guid key, when every
    read before it succeeds. *)
Fixpoint guid_line (fh : handle) : option string :=
  match fh with
  | [] => None
  | inl _ :: _ => None
  | inr line :: fh' =>
      if Py.startswith line "guid: " then Some line else guid_line fh'
  end.

(** The guid that the first walk takes from the file at [path]. *)
Definition declared (fs : filesystem) (path : string) : option string :=
  match os_open fs path with
  | inl _ => None
  | inr fh =>
      line ← guid_line fh;
      part ← Py.split_1 ":" line !! 1%nat;
      Some (Py.strip part)
  end.

(** The text of a handle all of whose reads succeed. *)
Fixpoint text_of (fh : handle) : option string :=
  match fh with
  | [] => Some ""
  | inl _ :: _ => None
  | inr line :: fh' => rest ← text_of fh'; Some (line +:+ rest)
  end.

(** The lower-cased guid of the first match that is not in [guids]. *)
Fixpoint first_missing (guids : gset string) (ms : list Re.match_obj)
  : option string :=
  match ms with
  | [] => None
  | m :: ms' =>
      match Re.groups m !! 0%nat with
      | None => None
      | Some g =>
          if decide (Py.lower g ∈ guids) then first_missing guids ms'
          else Some (Py.lower g)
      end
  end.

Section Summaries.

Context `{OsPath} (fs : filesystem).

(** The guid that the first walk takes from the file [name] of [dirpath]. *)
Definition collected (e : string * string) : option string :=
  if Py.endswith e.2 ".cs.meta" then declared fs (join e.1 e.2) else None.

(** The record that the second walk makes for the file [name] of
    [dirpath], given the collected set. *)
Definition recorded (guids : gset string) (e : string * string)
  : option (string * string) :=
  if Py.endswith_any (Py.lower e.2) target_exts then
    match os_open fs (join e.1 e.2) with
    | inl _ => None
    | inr fh =>
        text ← text_of fh;
        guid ← first_missing guids (Re.finditer pattern text);
        Some (relpath (join e.1 e.2) root, guid)
    end
  else None.

(** The set that the first walk builds, and the set that the second walk
    builds from it. *)
Definition collected_set : gset string :=
  list_to_set (omap collected (walk_files (os_walk fs root))).

Definition recorded_set : gset (string * string) :=
  list_to_set
    (omap (recorded collected_set) (walk_files (os_walk fs assets_root))).

End Summaries.

(** The lines that the report prints for the set [found]. *)
Definition report_lines (found : gset (string * string)) : list string :=
  if decide (found ≠ ∅) then report_line <$> sorted found
  else ["No missing scripts under Assets"].

(** The groups [gs] fit the capturing nodes of [re]: one group per
    capturing node, of the node's length and made of characters that the
    node's atom accepts. *)
Fixpoint groups_fit (ic : bool) (re : list Re.node) (gs : list string) : Prop :=
  match re with
  | [] => gs = []
  | Re.One _ :: re' | Re.Star _ :: re' => groups_fit ic re' gs
  | Re.GroupRepeat a n :: re' =>
      match gs with
      | [] => False
      | g :: gs' =>
          String.length g = n
          ∧ all_chars (Re.atom_match ic a) g = true
          ∧ groups_fit ic re' gs'
      end
  end.

(** No node of [re] accepts the character [c]. *)
Fixpoint rejects (ic : bool) (re : list Re.node) (c : ascii) : bool :=
  match re with
  | [] => true
  | Re.One a :: re' | Re.Star a :: re' | Re.GroupRepeat a _ :: re' =>
      negb (Re.atom_match ic a c) && rejects ic re' c
  end.

(** * Example projects *)

(** A Windows-like pair of path functions for the examples: [join] puts a
    backslash between its arguments, [relpath] drops the start directory
    and the backslash after it. *)
Fixpoint drop_chars (n : nat) (s : string) : string :=
  match n, s with
  | S n', String _ s' => drop_chars n' s'
  | _, _ => s
  end.

Definition example_path : OsPath := {|
  join d n := d +:+ "\" +:+ n;
  relpath p start := drop_chars (S (String.length start)) p |}.

Definition guid_player : string := "0123456789abcdef0123456789abcdef".
Definition guid_enemy : string := "00112233445566778899aabbccddeeff".
Definition guid_gone : string := "deadbeefdeadbeefdeadbeefdeadbeef".
Definition guid_lost : string := "feedfacefeedfacefeedfacefeedface".
Definition GUID_PLAYER : string := "0123456789ABCDEF0123456789ABCDEF".

Definition assets_dir : string := "P:\\PacBros\Assets".

(** The lines of a sidecar file that declares [g]. *)
Definition meta_lines (g : string) : list string :=
  ["fileFormatVersion: 2
"; "guid: " +:+ g +:+ "
"; "MonoImporter:
"].

(** A line of an asset file that binds the script [g]. *)
Definition script_line (g : string) : string :=
  "  m_Script: {fileID: 11500000, guid: " +:+ g +:+ ", type: 3}
".

(** The entry of [path] in a table of files; a path that is not in the
    table does not open (errno 2). *)
Fixpoint lookup_file (path : string) (files : list (string * (N + handle)))
  : N + handle :=
  match files with
  | [] => inl 2
  | (p, f) :: files' => if decide (p = path) then f else lookup_file path files'
  end.

(** A file system given by its two walks and a table of files. *)
Definition table_fs (walk_root walk_assets : list (string * list string * list string))
    (files : list (string * (N + handle))) : filesystem := {|
  os_walk top :=
    if decide (top = root) then walk_root
    else if decide (top = assets_dir) then walk_assets
    else [];
  os_open path := lookup_file path files |}.

(** A project with two scripts, a prefab that binds both and a scene in
    upper case that binds a known script, a deleted one and a second
    deleted one, and an asset that binds a deleted script; one sidecar
    cannot be opened (errno 13), one fails on a read after its guid line
    and one asset fails on its second read (errno 5). *)
Definition example_files : list (string * (N + handle)) :=
  [ ("P:\\PacBros\Assets\Player.cs.meta", inr (readable (meta_lines guid_player)));
    ("P:\\PacBros\Assets\Enemy.cs.meta",
       inr (readable (meta_lines guid_enemy) ++ [inl 5]));
    ("P:\\PacBros\Assets\Locked.cs.meta", inl 13);
    ("P:\\PacBros\Assets\Hero.prefab",
       inr (readable [script_line guid_player; script_line guid_enemy]));
    ("P:\\PacBros\Assets\Level.UNITY",
       inr (readable [script_line GUID_PLAYER; script_line guid_gone;
                      script_line guid_lost]));
    ("P:\\PacBros\Assets\Broken.asset",
       inr [inr (script_line guid_gone); inl 5]);
    ("P:\\PacBros\Assets\Boss.asset", inr (readable [script_line guid_lost])) ].

Definition example_fs : filesystem :=
  table_fs
    [ ("P:\\PacBros", ["Assets"], ["readme.txt"]);
      (assets_dir, [],
       ["Player.cs.meta"; "Enemy.cs.meta"; "Locked.cs.meta"; "Hero.prefab";
        "Level.UNITY"; "Broken.asset"; "Boss.asset"]) ]
    [ (assets_dir, [],
       ["Player.cs.meta"; "Enemy.cs.meta"; "Locked.cs.meta"; "Hero.prefab";
        "Level.UNITY"; "Broken.asset"; "Boss.asset"]) ]
    example_files.

(** The same project, listed in another order by both walks. *)
Definition example_fs_reordered : filesystem :=
  table_fs
    [ (assets_dir, [],
       ["Level.UNITY"; "Enemy.cs.meta"; "Hero.prefab"; "Broken.asset";
        "Locked.cs.meta"; "Boss.asset"; "Player.cs.meta"]);
      ("P:\\PacBros", ["Assets"], ["readme.txt"]) ]
    [ (assets_dir, [],
       ["Level.UNITY"; "Enemy.cs.meta"; "Hero.prefab"; "Broken.asset";
        "Locked.cs.meta"; "Boss.asset"; "Player.cs.meta"]) ]
    example_files.

(** A project whose sidecars declare the same guid twice, once in upper
    case and once in lower case, and whose prefab binds it. *)
Definition twice_declared_fs : filesystem :=
  table_fs
    [ (assets_dir, [], ["Player.cs.meta"; "Copy.cs.meta"; "Hero.prefab"]) ]
    [ (assets_dir, [], ["Player.cs.meta"; "Copy.cs.meta"; "Hero.prefab"]) ]
    [ ("P:\\PacBros\Assets\Player.cs.meta", inr (readable (meta_lines GUID_PLAYER)));
      ("P:\\PacBros\Assets\Copy.cs.meta", inr (readable (meta_lines guid_player)));
      ("P:\\PacBros\Assets\Hero.prefab", inr (readable [script_line GUID_PLAYER])) ].

(** A project whose only sidecar declares its guid in upper case, and
    whose prefab binds a deleted script before that one. *)
Definition upper_declared_fs : filesystem :=
  table_fs
    [ (assets_dir, [], ["Player.cs.meta"; "Hero.prefab"]) ]
    [ (assets_dir, [], ["Player.cs.meta"; "Hero.prefab"]) ]
    [ ("P:\\PacBros\Assets\Player.cs.meta", inr (readable (meta_lines GUID_PLAYER)));
      ("P:\\PacBros\Assets\Hero.prefab",
         inr (readable [script_line guid_gone; script_line GUID_PLAYER])) ].

(** A project without sidecars whose prefab binds a script with a blank
    after the opening brace of the record. *)
Definition spaced_brace_fs : filesystem :=
  table_fs
    [ (assets_dir, [], ["Hero.prefab"]) ]
    [ (assets_dir, [], ["Hero.prefab"]) ]
    [ ("P:\\PacBros\Assets\Hero.prefab",
         inr (readable ["  m_Script: { fileID: 11500000, guid: " +:+ guid_gone +:+
                        ", type: 3}
"])) ].

(** An empty [Assets] directory. *)
Definition empty_fs : filesystem :=
  table_fs [ ("P:\\PacBros", ["Assets"], []); (assets_dir, [], []) ]
           [ (assets_dir, [], []) ] [].

(** The state after the first walk of the example project. *)
Definition example_state : state :=
  mk_state {[guid_player; guid_enemy]} ∅ [].

(** * Vocabulary of the further properties *)

(** The text [t] is a reference record that binds [g]: the four keys in
    any case, the type number as it is, white space after each of them,
    and 32 hexadecimal digits. *)
Definition script_record (t g : string) : Prop :=
  ∃ k1 w1 k2 w2 w3 k4 w4,
    t = k1 +:+ w1 +:+ k2 +:+ w2 +:+ "11500000," +:+ w3 +:+ k4 +:+ w4 +:+ g
    ∧ Py.lower k1 = "m_script:"
    ∧ Py.lower k2 = "{fileid:"
    ∧ Py.lower k4 = "guid:"
    ∧ white w1 ∧ white w2 ∧ white w3 ∧ white w4
    ∧ hex32 g.

(** The character [c] does not occur in [s]. *)
Definition char_free (c : ascii) (s : string) : Prop :=
  some_char (λ x, bool_decide (x = c)) s = false.

(** The text [s] neither begins nor ends with white space. *)
Definition trimmed (s : string) : Prop :=
  Py.lstrip s = s ∧ Py.rstrip s = s.

(** The example project after [Locked.cs.meta], which declares the script
    that [Boss.asset] binds, has become readable. *)
Definition example_fs_unlocked : filesystem :=
  table_fs
    [ ("P:\\PacBros", ["Assets"], ["readme.txt"]);
      (assets_dir, [],
       ["Player.cs.meta"; "Enemy.cs.meta"; "Locked.cs.meta"; "Hero.prefab";
        "Level.UNITY"; "Broken.asset"; "Boss.asset"]) ]
    [ (assets_dir, [],
       ["Player.cs.meta"; "Enemy.cs.meta"; "Locked.cs.meta"; "Hero.prefab";
        "Level.UNITY"; "Broken.asset"; "Boss.asset"]) ]
    (("P:\\PacBros\Assets\Locked.cs.meta", inr (readable (meta_lines guid_lost)))
     :: example_files).

(** The example project with every directory listed twice by both walks. *)
Definition example_fs_twice : filesystem :=
  table_fs
    (os_walk example_fs root ++ os_walk example_fs root)
    (os_walk example_fs assets_dir ++ os_walk example_fs assets_dir)
    example_files.

(** The state after the first walk of the example project, with entries
    added that are not guids in lower case. *)
Definition example_state_junk : state :=
  mk_state {[guid_player; guid_enemy; ""; "guid"; GUID_PLAYER]} ∅ [].

(** A project whose sidecar has a guid line without a value. *)
Definition blank_guid_fs : filesystem :=
  table_fs
    [ (assets_dir, [], ["Player.cs.meta"]) ]
    [ (assets_dir, [], ["Player.cs.meta"]) ]
    [ ("P:\\PacBros\Assets\Player.cs.meta",
         inr (readable ["fileFormatVersion: 2
"; "guid: 	
"; "guid: " +:+ guid_player +:+ "
"])) ].
(** * Properties *)

(** ** Strings *)

Section StringFacts.

Implicit Types s t u p x : string.

Lemma str_app_cons c s t : String c s +:+ t = String c (s +:+ t).
Proof. reflexivity. Qed.

Lemma str_app_nil_r s : s +:+ "" = s.
Proof. induction s as [|c s IH]; [done|]. by rewrite str_app_cons, IH. Qed.

Lemma str_app_assoc s t u : (s +:+ t) +:+ u = s +:+ t +:+ u.
Proof. induction s as [|c s IH]; [done|]. by rewrite !str_app_cons, IH. Qed.

Lemma str_app_length s t :
  String.length (s +:+ t) = (String.length s + String.length t)%nat.
Proof. induction s as [|c s IH]; [done|]. rewrite str_app_cons. simpl. lia. Qed.

Lemma startswith_app s p : Py.startswith (p +:+ s) p = true.
Proof.
  induction p as [|a p IH]; [reflexivity|].
  rewrite str_app_cons. simpl. by rewrite decide_True.
Qed.

Lemma startswith_inv s p : Py.startswith s p = true → ∃ x, s = p +:+ x.
Proof.
  revert s. induction p as [|a p IH]; intros s Hs.
  - exists s. reflexivity.
  - destruct s as [|c s]; [done|]. simpl in Hs.
    destruct (decide (a = c)) as [->|]; [|done].
    destruct (IH _ Hs) as [x ->]. exists x. reflexivity.
Qed.

Lemma endswith_refl x : Py.endswith x x = true.
Proof.
  assert (bool_decide (x = x) = true) as Hx by by apply bool_decide_eq_true.
  destruct x; unfold Py.endswith; fold Py.endswith; by rewrite Hx.
Qed.

Lemma endswith_cons c s x : Py.endswith s x = true → Py.endswith (String c s) x = true.
Proof. intros Hs. simpl. rewrite Hs. apply orb_true_r. Qed.

Lemma endswith_app b x : Py.endswith (b +:+ x) x = true.
Proof.
  induction b as [|c b IH]; [apply endswith_refl|].
  rewrite str_app_cons. by apply endswith_cons.
Qed.

Lemma endswith_inv s x : Py.endswith s x = true → ∃ b, s = b +:+ x.
Proof.
  induction s as [|c s IH]; simpl; intros Hs.
  - rewrite orb_false_r in Hs. apply bool_decide_eq_true in Hs as <-.
    exists "". reflexivity.
  - apply orb_true_iff in Hs as [Hs|Hs].
    + apply bool_decide_eq_true in Hs as <-. exists "". reflexivity.
    + destruct (IH Hs) as [b ->]. exists (String c b). reflexivity.
Qed.

Lemma endswith_length s x :
  Py.endswith s x = true → (String.length x ≤ String.length s)%nat.
Proof. intros [b ->]%endswith_inv. rewrite str_app_length. lia. Qed.

Lemma lower_length s : String.length (Py.lower s) = String.length s.
Proof. induction s as [|c s IH]; simpl; congruence. Qed.

Lemma lower_app s t : Py.lower (s +:+ t) = Py.lower s +:+ Py.lower t.
Proof.
  induction s as [|c s IH]; [done|].
  rewrite str_app_cons. simpl. by rewrite IH.
Qed.

Lemma lower_char_idemp c : Py.lower_char (Py.lower_char c) = Py.lower_char c.
Proof. by destruct c as [[] [] [] [] [] [] [] []]. Qed.

Lemma lower_idemp s : Py.lower (Py.lower s) = Py.lower s.
Proof. induction s as [|c s IH]; simpl; [done|]. by rewrite lower_char_idemp, IH. Qed.

(** The suffix of a given length is unique. *)
Lemma str_app_inj_length b b' x x' :
  b +:+ x = b' +:+ x' → String.length x = String.length x' → x = x'.
Proof.
  revert b'. induction b as [|c b IH]; intros [|c' b'] Heq Hlen.
  - done.
  - exfalso. assert (x = String c' (b' +:+ x')) as -> by exact Heq.
    simpl in Hlen. rewrite str_app_length in Hlen. lia.
  - exfalso. assert (x' = String c (b +:+ x)) as -> by (symmetry; exact Heq).
    simpl in Hlen. rewrite str_app_length in Hlen. lia.
  - rewrite !str_app_cons in Heq. simplify_eq. eauto.
Qed.

(** A line that begins with the key has a second field after the colon. *)
Lemma split_1_guid_line x : Py.split_1 ":" ("guid: " +:+ x) !! 1%nat = Some (" " +:+ x).
Proof. reflexivity. Qed.

End StringFacts.

(** ** The matcher *)

Section RegexFacts.

Implicit Types (s w g : string) (re : list Re.node) (a : Re.atom).

Lemma atom_match_lit ic c : Re.atom_match ic (Re.Lit c) c = true.
Proof. destruct ic; simpl; by apply bool_decide_eq_true. Qed.

Lemma lits_cons c s : Re.lits (String c s) = Re.One (Re.Lit c) :: Re.lits s.
Proof. reflexivity. Qed.

Lemma match_here_one ic a re c s :
  Re.match_here ic (Re.One a :: re) (String c s) =
  if Re.atom_match ic a c then Re.match_here ic re s else None.
Proof. reflexivity. Qed.

Lemma match_here_group ic a n re s :
  Re.match_here ic (Re.GroupRepeat a n :: re) s =
  match Re.take_matching ic a n s with
  | None => None
  | Some (g, s') =>
      match Re.match_here ic re s' with
      | Some (gs, r) => Some (g :: gs, r)
      | None => None
      end
  end.
Proof. reflexivity. Qed.

(** A literal prefix of the pattern consumes itself. *)
Lemma match_here_lits ic p re s :
  Re.match_here ic (Re.lits p ++ re) (p +:+ s) = Re.match_here ic re s.
Proof.
  induction p as [|c p IH]; [reflexivity|].
  rewrite lits_cons, str_app_cons, <- app_comm_cons, match_here_one.
  by rewrite atom_match_lit.
Qed.

(** The equation of the star. *)
Lemma match_here_star ic a re s :
  Re.match_here ic (Re.Star a :: re) s =
  match s with
  | "" => Re.match_here ic re s
  | String c s' =>
      if Re.atom_match ic a c then
        match Re.match_here ic (Re.Star a :: re) s' with
        | Some r => Some r
        | None => Re.match_here ic re s
        end
      else Re.match_here ic re s
  end.
Proof. by destruct s. Qed.

(** A star followed by a successful match takes the whole run before it. *)
Lemma match_here_star_run ic a re w s r :
  all_chars (Re.atom_match ic a) w = true →
  stops a ic s →
  Re.match_here ic re s = Some r →
  Re.match_here ic (Re.Star a :: re) (w +:+ s) = Some r.
Proof.
  intros Hw Hs Hr. induction w as [|c w IH].
  - change ("" +:+ s) with s. rewrite match_here_star.
    destruct s as [|c s]; [done|]. simpl in Hs. by rewrite Hs.
  - simpl in Hw. apply andb_true_iff in Hw as [Hc Hw].
    rewrite str_app_cons, match_here_star, Hc. by rewrite (IH Hw).
Qed.

(** A counted repetition takes exactly its characters. *)
Lemma take_matching_app ic a g s :
  all_chars (Re.atom_match ic a) g = true →
  Re.take_matching ic a (String.length g) (g +:+ s) = Some (g, s).
Proof.
  intros Hg. induction g as [|c g IH]; [reflexivity|].
  simpl in Hg. apply andb_true_iff in Hg as [Hc Hg].
  rewrite str_app_cons. simpl. by rewrite Hc, (IH Hg).
Qed.

Lemma take_matching_inv ic a n s g r :
  Re.take_matching ic a n s = Some (g, r) →
  s = g +:+ r ∧ String.length g = n ∧ all_chars (Re.atom_match ic a) g = true.
Proof.
  revert s g r. induction n as [|n IH]; intros s g r Hs; simpl in Hs.
  - by simplify_eq.
  - destruct s as [|c s]; [done|].
    destruct (Re.atom_match ic a c) eqn:Hc; [|done].
    destruct (Re.take_matching ic a n s) as [[g' r']|] eqn:Hn; [|done].
    simplify_eq. destruct (IH _ _ _ Hn) as (-> & <- & Hg).
    split_and!; [done..|]. simpl. by rewrite Hc, Hg.
Qed.

Lemma all_chars_impl (P Q : ascii → bool) s :
  (∀ c, P c = true → Q c = true) → all_chars P s = true → all_chars Q s = true.
Proof.
  intros HPQ. induction s as [|c s IH]; simpl; [done|].
  intros [Hc Hs]%andb_true_iff. by rewrite (HPQ _ Hc), (IH Hs).
Qed.

Lemma all_chars_app P s t :
  all_chars P (s +:+ t) = all_chars P s && all_chars P t.
Proof.
  induction s as [|c s IH]; [reflexivity|].
  rewrite str_app_cons. simpl. by rewrite IH, andb_assoc.
Qed.

(** The set of the pattern, with [IGNORECASE], accepts exactly the
    hexadecimal digits of either case. *)
Lemma hex_set_match c :
  Re.atom_match true (Re.In [("0", "9"); ("a", "f")]%char) c = is_hex_digit c.
Proof. by destruct c as [[] [] [] [] [] [] [] []]. Qed.

Lemma hex_digit_not_space c : is_hex_digit c = true → Py.is_space c = false.
Proof. by destruct c as [[] [] [] [] [] [] [] []]. Qed.

Lemma lower_hex_digit c :
  is_hex_digit c = true → is_lower_hex_digit (Py.lower_char c) = true.
Proof. by destruct c as [[] [] [] [] [] [] [] []]. Qed.

Lemma lower_not_upper_hex c :
  is_lower_hex_digit c = true → is_upper_hex_letter c = false.
Proof. by destruct c as [[] [] [] [] [] [] [] []]. Qed.

End RegexFacts.

(** ** The iterator over the matches *)

Section FinditerFacts.

Implicit Types (re : Re.regex) (s : string).

(** The fuel of [Re.finditer] is enough: any larger amount gives the same
    matches. *)
Lemma finditer_from_enough re s n m :
  (String.length s < n)%nat → (String.length s < m)%nat →
  Re.finditer_from n re s = Re.finditer_from m re s.
Proof.
  revert s m. induction n as [|n IH]; intros s [|m] Hn Hm; [lia..|].
  simpl.
  assert (match s with "" => [] | String _ s' => Re.finditer_from n re s' end
          = match s with "" => [] | String _ s' => Re.finditer_from m re s' end)
    as Hadv.
  { destruct s as [|c s]; [done|]. simpl in *. apply IH; lia. }
  destruct (Re.match_here _ _ s) as [[gs rest]|]; [|done].
  f_equal. case_decide; [|done]. apply IH; lia.
Qed.

(** The equation of [Re.finditer]. *)
Lemma finditer_eq re s :
  Re.finditer re s =
  let advance :=
    match s with "" => [] | String _ s' => Re.finditer re s' end in
  match Re.match_here (Re.ignorecase re) (Re.nodes re) s with
  | Some (gs, rest) =>
      Re.mk_match gs ::
        (if decide (String.length rest < String.length s)%nat
         then Re.finditer re rest else advance)
  | None => advance
  end.
Proof.
  unfold Re.finditer at 1. simpl.
  assert (match s with "" => [] | String _ s' =>
            Re.finditer_from (String.length s) re s' end
          = match s with "" => [] | String _ s' => Re.finditer re s' end)
    as ->.
  { destruct s as [|c s]; [done|]. reflexivity. }
  destruct (Re.match_here _ _ s) as [[gs rest]|]; [|done].
  f_equal. case_decide; [|done].
  unfold Re.finditer. apply finditer_from_enough; lia.
Qed.

Lemma finditer_no_match re c s :
  Re.match_here (Re.ignorecase re) (Re.nodes re) (String c s) = None →
  Re.finditer re (String c s) = Re.finditer re s.
Proof. intros Hm. by rewrite finditer_eq, Hm. Qed.

Lemma finditer_match re s gs rest :
  Re.match_here (Re.ignorecase re) (Re.nodes re) s = Some (gs, rest) →
  (String.length rest < String.length s)%nat →
  Re.finditer re s = Re.mk_match gs :: Re.finditer re rest.
Proof. intros Hm Hlen. rewrite finditer_eq, Hm. simpl. by rewrite decide_True. Qed.

End FinditerFacts.

(** ** The pattern of the script *)

Section PatternFacts.

Implicit Types (s w g rest : string).

Lemma hex32_all_match g :
  hex32 g →
  all_chars (Re.atom_match true (Re.In [("0", "9"); ("a", "f")]%char)) g = true.
Proof.
  intros [_ Hg]. eapply all_chars_impl; [|exact Hg].
  intros c Hc. by rewrite hex_set_match.
Qed.

Lemma hex32_stops_space g rest : hex32 g → stops Re.Space true (g +:+ rest).
Proof.
  intros [Hlen Hg]. destruct g as [|c g]; [done|].
  rewrite str_app_cons. simpl in *.
  apply andb_true_iff in Hg as [Hc _]. by apply hex_digit_not_space.
Qed.

Lemma pattern_nodes :
  Re.nodes pattern =
  Re.lits "m_Script:" ++ Re.Star Re.Space ::
  Re.lits "{fileID:" ++ Re.Star Re.Space ::
  Re.lits "11500000," ++ Re.Star Re.Space ::
  Re.lits "guid:" ++ Re.Star Re.Space ::
  [Re.GroupRepeat (Re.In [("0", "9"); ("a", "f")]%char) 32].
Proof. reflexivity. Qed.

(** The pattern matches the reference record, whatever white space
    follows its first four tokens, and captures the guid as written. *)
Lemma pattern_match_ref w1 w2 w3 w4 g rest :
  white w1 → white w2 → white w3 → white w4 → hex32 g →
  Re.match_here true (Re.nodes pattern) (script_ref w1 w2 w3 w4 g +:+ rest)
  = Some ([g], rest).
Proof.
  intros H1 H2 H3 H4 Hg. unfold script_ref.
  rewrite pattern_nodes, !str_app_assoc.
  rewrite match_here_lits. apply match_here_star_run; [done..|].
  rewrite match_here_lits. apply match_here_star_run; [done..|].
  rewrite match_here_lits. apply match_here_star_run; [done..|].
  rewrite match_here_lits.
  apply match_here_star_run; [done|by apply hex32_stops_space|].
  rewrite match_here_group. pose proof (hex32_all_match _ Hg) as Hall.
  destruct Hg as [<- _]. by rewrite take_matching_app.
Qed.

Lemma script_ref_length w1 w2 w3 w4 g rest :
  (String.length rest < String.length (script_ref w1 w2 w3 w4 g +:+ rest))%nat.
Proof. unfold script_ref. rewrite !str_app_length. simpl. lia. Qed.

(** The iterator yields the record first and goes on behind it. *)
Lemma finditer_script_ref w1 w2 w3 w4 g rest :
  white w1 → white w2 → white w3 → white w4 → hex32 g →
  Re.finditer pattern (script_ref w1 w2 w3 w4 g +:+ rest)
  = Re.mk_match [g] :: Re.finditer pattern rest.
Proof.
  intros. apply finditer_match; [by apply pattern_match_ref|].
  apply script_ref_length.
Qed.

End PatternFacts.

(** ** What a match leaves *)

Section MatchFacts.

Implicit Types (s p t g r : string) (re : list Re.node) (a : Re.atom).

(** The captured groups fit the capturing nodes. *)
Lemma match_here_groups_fit ic re s gs r :
  Re.match_here ic re s = Some (gs, r) → groups_fit ic re gs.
Proof.
  revert s gs r. induction re as [|[a|a|a n] re IH]; intros s gs r Hm.
  - simpl in Hm. by simplify_eq.
  - destruct s as [|c s]; [done|]. rewrite match_here_one in Hm.
    destruct (Re.atom_match ic a c); [|done]. simpl. eauto.
  - simpl groups_fit. induction s as [|c s IHs].
    + rewrite match_here_star in Hm. eauto.
    + rewrite match_here_star in Hm.
      destruct (Re.atom_match ic a c); [|by eauto].
      destruct (Re.match_here ic (Re.Star a :: re) s) as [r'|]; [|by eauto].
      simplify_eq. by apply IHs.
  - rewrite match_here_group in Hm.
    destruct (Re.take_matching ic a n s) as [[g s']|] eqn:Hg; [|done].
    destruct (Re.match_here ic re s') as [[gs' r']|] eqn:Hre; [|done].
    simplify_eq. apply take_matching_inv in Hg as (_ & Hlen & Hall).
    simpl. eauto.
Qed.

(** A counted repetition stops before a character that its atom does not
    accept. *)
Lemma take_matching_blocked ic a n p c t g r :
  Re.atom_match ic a c = false →
  Re.take_matching ic a n (p +:+ String c t) = Some (g, r) →
  ∃ p', r = p' +:+ String c t ∧ (String.length p' ≤ String.length p)%nat.
Proof.
  intros Hc. revert p g r. induction n as [|n IH]; intros p g r Hm.
  - simpl in Hm. simplify_eq. by exists p.
  - destruct p as [|d p].
    + change ("" +:+ String c t) with (String c t) in Hm.
      simpl in Hm. by rewrite Hc in Hm.
    + rewrite str_app_cons in Hm. simpl in Hm.
      destruct (Re.atom_match ic a d); [|done].
      destruct (Re.take_matching ic a n (p +:+ String c t))
        as [[g' r']|] eqn:Hn; [|done].
      simplify_eq. destruct (IH _ _ _ Hn) as (p' & -> & Hlen).
      exists p'. split; [done|]. simpl. lia.
Qed.

(** A match of nodes that all reject [c] ends before the first [c] that
    no node has passed. *)
Lemma match_here_blocked ic re p c t gs r :
  rejects ic re c = true →
  Re.match_here ic re (p +:+ String c t) = Some (gs, r) →
  ∃ p', r = p' +:+ String c t ∧ (String.length p' ≤ String.length p)%nat.
Proof.
  revert p gs r. induction re as [|[a|a|a n] re IH]; intros p gs r Hrej Hm.
  - simpl in Hm. simplify_eq. by exists p.
  - simpl in Hrej. apply andb_true_iff in Hrej as [Ha%negb_true_iff Hrej].
    destruct p as [|d p].
    + change ("" +:+ String c t) with (String c t) in Hm.
      rewrite match_here_one, Ha in Hm. done.
    + rewrite str_app_cons, match_here_one in Hm.
      destruct (Re.atom_match ic a d); [|done].
      destruct (IH _ _ _ Hrej Hm) as (p' & -> & Hlen).
      exists p'. split; [done|]. simpl. lia.
  - simpl in Hrej. apply andb_true_iff in Hrej as [Ha%negb_true_iff Hrej].
    induction p as [|d p IHp].
    + change ("" +:+ String c t) with (String c t) in Hm.
      rewrite match_here_star, Ha in Hm. by apply (IH "" gs r).
    + rewrite str_app_cons, match_here_star in Hm.
      assert (Re.match_here ic re (String d p +:+ String c t) = Some (gs, r) →
              ∃ p', r = p' +:+ String c t
                    ∧ (String.length p' ≤ String.length (String d p))%nat)
        as Hback by by apply IH.
      destruct (Re.atom_match ic a d); [|by auto].
      destruct (Re.match_here ic (Re.Star a :: re) (p +:+ String c t))
        as [r'|] eqn:Hs; [|by auto].
      simplify_eq. destruct (IHp eq_refl) as (p' & -> & Hlen).
      exists p'. split; [done|]. simpl. lia.
  - simpl in Hrej. apply andb_true_iff in Hrej as [Ha%negb_true_iff Hrej].
    rewrite match_here_group in Hm.
    destruct (Re.take_matching ic a n (p +:+ String c t))
      as [[g s']|] eqn:Hg; [|done].
    destruct (Re.match_here ic re s') as [[gs' r']|] eqn:Hre; [|done].
    simplify_eq.
    destruct (take_matching_blocked _ _ _ _ _ _ _ _ Ha Hg) as (p1 & -> & Hlen1).
    destruct (IH _ _ _ Hrej Hre) as (p' & -> & Hlen).
    exists p'. split; [done|]. lia.
Qed.

End MatchFacts.

(** ** The matches of the pattern *)

Section PatternMatches.

Implicit Types (s p t g r rest : string).

(** A match of the pattern captures one group: 32 hexadecimal digits. *)
Lemma pattern_match_inv s gs r :
  Re.match_here true (Re.nodes pattern) s = Some (gs, r) →
  ∃ g, gs = [g] ∧ hex32 g.
Proof.
  intros Hm%match_here_groups_fit. simpl in Hm.
  destruct gs as [|g gs]; [done|]. destruct Hm as (Hlen & Hall & ->).
  exists g. split; [done|]. split; [done|].
  eapply all_chars_impl; [|exact Hall]. intros c Hc. by rewrite <- hex_set_match.
Qed.

(** Every element of the iterator comes from an anchored match. *)
Lemma finditer_from_elem fuel re s m :
  m ∈ Re.finditer_from fuel re s →
  ∃ s' gs r,
    Re.match_here (Re.ignorecase re) (Re.nodes re) s' = Some (gs, r)
    ∧ m = Re.mk_match gs.
Proof.
  revert s. induction fuel as [|fuel IH]; intros s Hm; simpl in Hm.
  - by apply elem_of_nil in Hm.
  - assert (m ∈ match s with "" => [] | String _ s' =>
                    Re.finditer_from fuel re s' end → ∃ s' gs r,
              Re.match_here (Re.ignorecase re) (Re.nodes re) s' = Some (gs, r)
              ∧ m = Re.mk_match gs) as Hadv.
    { destruct s as [|c s]; [by intros ?%elem_of_nil|]. apply IH. }
    destruct (Re.match_here _ _ s) as [[gs r]|] eqn:Hs; [|by auto].
    apply elem_of_cons in Hm as [->|Hm]; [by eauto|].
    case_decide; eauto.
Qed.

Lemma finditer_pattern_elem s m :
  m ∈ Re.finditer pattern s → ∃ g, Re.groups m = [g] ∧ hex32 g.
Proof.
  intros (s' & gs & r & Hm & ->)%finditer_from_elem.
  by apply pattern_match_inv in Hm.
Qed.

(** A match that starts before an [m] which begins a reference record
    ends before that [m]: only the first node of the pattern accepts it. *)
Lemma pattern_blocked d p t gs r :
  Re.match_here true (Re.nodes pattern) (String d p +:+ String "m" t)
  = Some (gs, r) →
  ∃ p', r = p' +:+ String "m" t ∧ (String.length p' ≤ String.length p)%nat.
Proof.
  rewrite pattern_nodes, str_app_cons, lits_cons, <- app_comm_cons.
  rewrite match_here_one. destruct (Re.atom_match _ _ d); [|done].
  by apply match_here_blocked.
Qed.

(** Wherever a reference record stands in a text, the iterator reaches
    it: the matches found before it end before it. *)
Lemma finditer_reaches_ref pre w1 w2 w3 w4 g rest :
  white w1 → white w2 → white w3 → white w4 → hex32 g →
  ∃ ms, Re.finditer pattern (pre +:+ script_ref w1 w2 w3 w4 g +:+ rest)
        = ms ++ Re.mk_match [g] :: Re.finditer pattern rest.
Proof.
  intros H1 H2 H3 H4 Hg.
  remember (String.length pre) as n eqn:Hn. revert pre Hn.
  induction n as [n IHn] using lt_wf_ind. intros pre ->.
  destruct pre as [|d p].
  - exists []. by apply finditer_script_ref.
  - assert (∃ t, script_ref w1 w2 w3 w4 g +:+ rest = String "m" t) as [t Ht]
      by by eexists.
    rewrite Ht, str_app_cons.
    destruct (Re.match_here true (Re.nodes pattern) (String d (p +:+ String "m" t)))
      as [[gs r]|] eqn:Hm.
    + destruct (pattern_blocked d p t gs r Hm) as (p' & -> & Hlen).
      rewrite (finditer_match pattern _ gs (p' +:+ String "m" t) Hm);
        [|simpl; rewrite !str_app_length; lia].
      destruct (IHn (String.length p') ltac:(simpl; lia) p' eq_refl) as [ms Hms].
      rewrite <- Ht, Hms. by exists (Re.mk_match gs :: ms).
    + rewrite (finditer_no_match pattern _ _ Hm), <- Ht.
      apply (IHn (String.length p)); [simpl; lia|done].
Qed.

End PatternMatches.

(** ** Loops *)

Section LoopFacts.

Context {X Y : Type}.

Lemma for_each_app (xs ys : list X) (body : X → M unit) st :
  for_each (xs ++ ys) body st = (for_each xs body ;; for_each ys body) st.
Proof.
  revert st. induction xs as [|x xs IH]; intros st; [reflexivity|].
  simpl. unfold bind in *.
  destruct (body x st) as [[e|[]] st']; [reflexivity|].
  apply IH.
Qed.

Lemma for_each_fmap (f : X → Y) (xs : list X) (body : Y → M unit) st :
  for_each (f <$> xs) body st = for_each xs (λ x, body (f x)) st.
Proof.
  revert st. induction xs as [|x xs IH]; intros st; [reflexivity|].
  simpl. unfold bind. destruct (body (f x) st) as [[e|[]] st']; [reflexivity|].
  apply IH.
Qed.

Lemma for_each_ext (xs : list X) (body body' : X → M unit) st :
  (∀ x st, body x st = body' x st) →
  for_each xs body st = for_each xs body' st.
Proof.
  intros Hb. revert st. induction xs as [|x xs IH]; intros st; [reflexivity|].
  simpl. unfold bind. rewrite Hb.
  destruct (body' x st) as [[e|[]] st']; [reflexivity|].
  apply IH.
Qed.

End LoopFacts.

(** The nested loops of a walk visit the files of the walk in order. *)
Lemma for_each_walk w (body : string → string → M unit) st :
  for_each w (λ '(dirpath, _, files), for_each files (body dirpath)) st
  = for_each (walk_files w) (λ e, body e.1 e.2) st.
Proof.
  revert st. induction w as [|[[d ds] files] w IH]; intros st; [reflexivity|].
  unfold walk_files. rewrite bind_cons. fold (walk_files w).
  rewrite for_each_app. simpl. unfold bind.
  rewrite for_each_fmap. simpl.
  destruct (for_each files _ st) as [[e|[]] st']; [reflexivity|].
  apply IH.
Qed.

(** ** The first walk *)

Section CollectorFacts.

Implicit Types (fh post : handle) (pre ls : list string) (st : state).

Lemma collect_lines_cons (line : string) fh :
  collect_lines (inr line :: fh) =
  if Py.startswith line "guid: " then
    (part <- index (Py.split_1 ":" line) 1 ;;
     script_guids_add (Py.strip part) ;;
     ret fh)
  else collect_lines fh.
Proof. reflexivity. Qed.

Lemma guid_line_cons (line : string) fh :
  guid_line (inr line :: fh) =
  if Py.startswith line "guid: " then Some line else guid_line fh.
Proof. reflexivity. Qed.

Lemma readable_cons l ls fh : readable (l :: ls) ++ fh = inr l :: (readable ls ++ fh).
Proof. reflexivity. Qed.

Lemma collect_lines_found pre x post st :
  no_guid_line pre →
  collect_lines (readable pre ++ inr ("guid: " +:+ x) :: post) st
  = (inr post, with_guid (Py.strip (" " +:+ x)) st).
Proof.
  induction 1 as [|l pre Hl _ IH].
  - change (readable [] ++ ?fh) with fh.
    rewrite collect_lines_cons, startswith_app. unfold bind, index.
    by rewrite split_1_guid_line.
  - by rewrite readable_cons, collect_lines_cons, Hl.
Qed.

Lemma collect_lines_none ls st :
  no_guid_line ls → collect_lines (readable ls) st = (inr [], st).
Proof.
  induction 1 as [|l ls Hl _ IH]; [done|].
  change (readable (l :: ls)) with (inr l :: readable ls : handle).
  by rewrite collect_lines_cons, Hl.
Qed.

Lemma collect_lines_error pre e post st :
  no_guid_line pre →
  collect_lines (readable pre ++ inl e :: post) st = (inl (OSError e), st).
Proof.
  induction 1 as [|l ls Hl _ IH]; [done|].
  by rewrite readable_cons, collect_lines_cons, Hl.
Qed.

Lemma guid_line_found pre x post :
  no_guid_line pre →
  guid_line (readable pre ++ inr ("guid: " +:+ x) :: post)
  = Some ("guid: " +:+ x).
Proof.
  induction 1 as [|l pre Hl _ IH].
  - change (readable [] ++ ?fh) with fh.
    by rewrite guid_line_cons, startswith_app.
  - by rewrite readable_cons, guid_line_cons, Hl.
Qed.

Lemma guid_line_none ls : no_guid_line ls → guid_line (readable ls) = None.
Proof.
  induction 1 as [|l ls Hl _ IH]; [done|].
  change (readable (l :: ls)) with (inr l :: readable ls : handle).
  by rewrite guid_line_cons, Hl.
Qed.

Lemma guid_line_error pre e post :
  no_guid_line pre → guid_line (readable pre ++ inl e :: post) = None.
Proof.
  induction 1 as [|l ls Hl _ IH]; [done|].
  by rewrite readable_cons, guid_line_cons, Hl.
Qed.

(** A handle either reaches a guid line, or ends without one, or fails
    before one. *)
Lemma handle_cases fh :
  (∃ pre x post,
     fh = readable pre ++ inr ("guid: " +:+ x) :: post ∧ no_guid_line pre)
  ∨ (∃ ls, fh = readable ls ∧ no_guid_line ls)
  ∨ (∃ pre e post, fh = readable pre ++ inl e :: post ∧ no_guid_line pre).
Proof.
  induction fh as [|[e|l] fh IH].
  - right; left. exists []. split; [reflexivity|constructor].
  - right; right. exists [], e, fh. split; [reflexivity|constructor].
  - destruct (Py.startswith l "guid: ") eqn:Hl.
    + left. apply startswith_inv in Hl as [x ->]. exists [], x, fh.
      split; [reflexivity|constructor].
    + destruct IH as [(pre & x & post & -> & Hpre)
                     |[(ls & -> & Hls)|(pre & e & post & -> & Hpre)]].
      * left. exists (l :: pre), x, post. split; [reflexivity|by constructor].
      * right; left. exists (l :: ls). split; [reflexivity|by constructor].
      * right; right. exists (l :: pre), e, post.
        split; [reflexivity|by constructor].
Qed.

Context `{OsPath} (fs : filesystem).

(** One sidecar file: the loop body never raises and adds what the file
    declares. *)
Lemma collect_file_spec d n st :
  collect_file fs d n st
  = (inr tt, from_option (λ g, with_guid g st) st (collected fs (d, n))).
Proof.
  unfold collect_file, collected. simpl.
  destruct (Py.endswith n ".cs.meta"); [|done]. simpl.
  unfold collect_path, try_except_OSError, bind, open_, declared.
  destruct (os_open fs (join d n)) as [e|fh]; [done|]. simpl.
  destruct (handle_cases fh) as [(pre & x & post & -> & Hpre)
                                |[(ls & -> & Hls)|(pre & e & post & -> & Hpre)]].
  - by rewrite collect_lines_found, guid_line_found.
  - by rewrite collect_lines_none, guid_line_none.
  - by rewrite collect_lines_error, guid_line_error.
Qed.

End CollectorFacts.

(** ** The second walk *)

Section ScannerFacts.

Implicit Types (fh : handle) (st : state) (ms : list Re.match_obj).

Lemma read_ok fh t st : text_of fh = Some t → read fh st = (inr t, st).
Proof.
  revert t. induction fh as [|[e|l] fh IH]; intros t Ht; simpl in *.
  - by simplify_eq.
  - done.
  - destruct (text_of fh) as [rest|]; [|done]. simpl in Ht. simplify_eq.
    unfold bind. by rewrite (IH rest).
Qed.

Lemma read_fail fh st :
  text_of fh = None → ∃ e, read fh st = (inl (OSError e), st).
Proof.
  induction fh as [|[e|l] fh IH]; intros Ht; simpl in *.
  - done.
  - by exists e.
  - destruct (text_of fh) as [rest|]; [done|].
    destruct (IH eq_refl) as [e He]. exists e. unfold bind. by rewrite He.
Qed.

Context `{OsPath}.

Lemma check_matches_cons path m ms st :
  check_matches path (m :: ms) st =
  match Re.groups m !! 0%nat with
  | None => (inl IndexError, st)
  | Some g =>
      if decide (Py.lower g ∈ script_guids st) then check_matches path ms st
      else (inr ms, with_missing (relpath path root, Py.lower g) st)
  end.
Proof.
  simpl. unfold bind, group_1, index.
  destruct (Re.groups m !! 0%nat) as [g|]; [|done]. simpl.
  destruct (decide (Py.lower g ∈ script_guids st)).
  - by rewrite decide_False by auto.
  - by rewrite decide_True.
Qed.

(** The loop over the matches stops at the first guid that is missing;
    matches with a group never make it raise. *)
Lemma check_matches_spec path ms st :
  Forall (λ m, is_Some (Re.groups m !! 0%nat)) ms →
  ∃ rest,
    check_matches path ms st
    = (inr rest,
       from_option (λ g, with_missing (relpath path root, g) st) st
         (first_missing (script_guids st) ms)).
Proof.
  induction 1 as [|m ms [g Hg] _ IH]; [by exists []|].
  rewrite check_matches_cons. simpl. rewrite Hg.
  destruct (decide (Py.lower g ∈ script_guids st)); [done|by exists ms].
Qed.

Lemma finditer_pattern_groups s :
  Forall (λ m, is_Some (Re.groups m !! 0%nat)) (Re.finditer pattern s).
Proof.
  apply Forall_forall. intros m (g & Hg & _)%finditer_pattern_elem.
  rewrite Hg. by exists g.
Qed.

Context (fs : filesystem).

(** One asset file: the loop body never raises and adds the record of
    the file, if it has one. *)
Lemma scan_file_spec d n st :
  scan_file fs d n st
  = (inr tt,
     from_option (λ r, with_missing r st) st
       (recorded fs (script_guids st) (d, n))).
Proof.
  unfold scan_file, recorded. cbn [fst snd].
  destruct (Py.endswith_any (Py.lower n) target_exts); [|reflexivity].
  cbn [negb]. unfold scan_path, try_except_OSError, bind at 1 2, open_.
  destruct (os_open fs (join d n)) as [e|fh]; [done|]. simpl.
  unfold bind at 1.
  destruct (text_of fh) as [text|] eqn:Ht.
  - rewrite (read_ok _ _ _ Ht). simpl. unfold bind.
    destruct (check_matches_spec (join d n) (Re.finditer pattern text) st
                (finditer_pattern_groups text)) as [rest ->].
    by destruct (first_missing _ _).
  - by destruct (read_fail fh st Ht) as [e ->].
Qed.

End ScannerFacts.

(** ** The whole walks and the report *)

Section WalkFacts.

Lemma state_eta st : mk_state (script_guids st) (missing st) (stdout st) = st.
Proof. by destruct st. Qed.

(** A loop whose body adds at most one guid builds the set of what the
    bodies add. *)
Lemma for_each_guids {X} (f : X → option string) (body : X → M unit) xs st :
  (∀ x st, body x st = (inr tt, from_option (λ g, with_guid g st) st (f x))) →
  for_each xs body st
  = (inr tt,
     mk_state (list_to_set (omap f xs) ∪ script_guids st) (missing st) (stdout st)).
Proof.
  intros Hbody. revert st. induction xs as [|x xs IH]; intros st.
  - simpl. unfold ret. rewrite (left_id_L ∅ (∪)). by rewrite state_eta.
  - simpl. unfold bind. rewrite Hbody.
    destruct (f x) as [g|]; simpl; rewrite IH; [|done].
    simpl. do 2 f_equal.
    by rewrite (assoc_L (∪)), (comm_L (∪) (list_to_set _)).
Qed.

(** The same for a loop whose body adds at most one record and leaves
    [script_guids] alone. *)
Lemma for_each_missing {X} (f : gset string → X → option (string * string))
    (body : X → M unit) xs st :
  (∀ x st, body x st
           = (inr tt, from_option (λ r, with_missing r st) st
                        (f (script_guids st) x))) →
  for_each xs body st
  = (inr tt,
     mk_state (script_guids st)
       (list_to_set (omap (f (script_guids st)) xs) ∪ missing st) (stdout st)).
Proof.
  intros Hbody. revert st. induction xs as [|x xs IH]; intros st.
  - simpl. unfold ret. rewrite (left_id_L ∅ (∪)). by rewrite state_eta.
  - simpl. unfold bind. rewrite Hbody.
    destruct (f (script_guids st) x) as [r|]; simpl; rewrite IH; [|done].
    simpl. do 2 f_equal.
    by rewrite (assoc_L (∪)), (comm_L (∪) (list_to_set _)).
Qed.

Lemma for_each_print (l : list (string * string)) st :
  for_each l (λ '(rel, guid), print (rel +:+ " -> " +:+ guid)) st
  = (inr tt,
     mk_state (script_guids st) (missing st) (stdout st ++ (report_line <$> l))).
Proof.
  revert st. induction l as [|[rel guid] l IH]; intros st.
  - simpl. unfold ret. by rewrite (right_id_L [] (++)), state_eta.
  - simpl. unfold bind, print. rewrite IH. simpl.
    by rewrite <- (assoc_L (++)).
Qed.

Lemma reporter_spec st :
  reporter st
  = (inr tt,
     mk_state (script_guids st) (missing st)
       (stdout st ++ report_lines (missing st))).
Proof.
  unfold reporter, report_lines, bind, get_missing.
  destruct (decide (missing st ≠ ∅)); [|done].
  by rewrite for_each_print.
Qed.

Context `{OsPath} (fs : filesystem).

Lemma collector_spec st :
  collector fs st
  = (inr tt,
     mk_state (collected_set fs ∪ script_guids st) (missing st) (stdout st)).
Proof.
  unfold collector. rewrite for_each_walk.
  apply (for_each_guids (collected fs)).
  intros [d n] st'. apply collect_file_spec.
Qed.

Lemma scanner_spec st :
  scanner fs st
  = (inr tt,
     mk_state (script_guids st)
       (list_to_set (omap (recorded fs (script_guids st))
                       (walk_files (os_walk fs assets_root))) ∪ missing st)
       (stdout st)).
Proof.
  unfold scanner. rewrite for_each_walk.
  apply (for_each_missing (recorded fs)).
  intros [d n] st'. apply scan_file_spec.
Qed.

(** The script never raises; it ends with the two sets of the walks and
    has printed the report of the second. *)
Lemma main_spec st :
  main fs st
  = (inr tt,
     mk_state (collected_set fs) (recorded_set fs)
       (stdout st ++ report_lines (recorded_set fs))).
Proof.
  unfold main, bind, set_script_guids, set_missing.
  rewrite collector_spec. simpl. rewrite scanner_spec. simpl.
  rewrite reporter_spec. simpl.
  rewrite !(right_id_L ∅ (∪)). reflexivity.
Qed.

End WalkFacts.

(** ** The order of the report *)

Section OrderFacts.

Lemma tuple_le_total : Total tuple_le.
Proof.
  intros [x1 x2] [y1 y2]. unfold tuple_le. simpl.
  destruct (decide (x1 = y1)) as [->|Hne].
  - destruct (total String.le x2 y2); [left|right]; done.
  - destruct (total String.le x1 y1); [left|right]; (split; [done|congruence]).
Qed.

Lemma tuple_le_trans : Transitive tuple_le.
Proof.
  intros [x1 x2] [y1 y2] [z1 z2]. unfold tuple_le. simpl.
  intros [Hxy1 Hxy2] [Hyz1 Hyz2]. split; [by etrans|].
  intros ->. assert (y1 = z1) as -> by by apply (anti_symm String.le).
  by etrans; [apply Hxy2|apply Hyz2].
Qed.

Lemma tuple_le_antisymm : AntiSymm (=) tuple_le.
Proof.
  intros [x1 x2] [y1 y2]. unfold tuple_le. simpl.
  intros [Hxy1 Hxy2] [Hyx1 Hyx2].
  assert (x1 = y1) as -> by by apply (anti_symm String.le).
  f_equal. apply (anti_symm String.le); auto.
Qed.

(** [sorted] lists every element of the set once, in order. *)
Lemma sorted_spec (s : gset (string * string)) :
  sorted s ≡ₚ elements s ∧ NoDup (sorted s) ∧ StronglySorted tuple_le (sorted s).
Proof.
  unfold sorted. split_and!.
  - apply merge_sort_Permutation.
  - rewrite merge_sort_Permutation. apply NoDup_elements.
  - apply (@StronglySorted_merge_sort _ tuple_le _ tuple_le_trans tuple_le_total).
Qed.

End OrderFacts.

(** ** What a file declares, what a file lacks *)

Section FileFacts.

Lemma declared_declares fs path g :
  declared fs path = Some g ↔ declares fs path g.
Proof.
  unfold declared, declares. split.
  - destruct (os_open fs path) as [e|fh]; [done|].
    destruct (handle_cases fh) as [(pre & x & post & -> & Hpre)
                                  |[(ls & -> & Hls)|(pre & e & post & -> & Hpre)]].
    + rewrite guid_line_found by done. simpl.
      intros [= <-]. by exists pre, x, post.
    + by rewrite guid_line_none.
    + by rewrite guid_line_error.
  - intros (pre & x & post & -> & Hpre & ->).
    by rewrite guid_line_found.
Qed.

Lemma all_chars_not_some (P Q : ascii → bool) s :
  (∀ c, P c = true → Q c = false) →
  all_chars P s = true → some_char Q s = false.
Proof.
  intros HPQ. induction s as [|c s IH]; simpl; [done|].
  intros [Hc Hs]%andb_true_iff. by rewrite (HPQ _ Hc), (IH Hs).
Qed.

Lemma all_chars_lower (P Q : ascii → bool) s :
  (∀ c, P c = true → Q (Py.lower_char c) = true) →
  all_chars P s = true → all_chars Q (Py.lower s) = true.
Proof.
  intros HPQ. induction s as [|c s IH]; simpl; [done|].
  intros [Hc Hs]%andb_true_iff. by rewrite (HPQ _ Hc), (IH Hs).
Qed.

(** A lower-cased guid has no capital letter. *)
Lemma lower_hex32_no_upper g :
  hex32 g → some_char is_upper_hex_letter (Py.lower g) = false.
Proof.
  intros [_ Hg]. apply (all_chars_not_some is_lower_hex_digit).
  - apply lower_not_upper_hex.
  - apply (all_chars_lower is_hex_digit); [apply lower_hex_digit|exact Hg].
Qed.

Context `{OsPath}.

(** The loop over the matches, on a list whose first missing guid is
    known. *)
Lemma check_matches_first path pre m post g st :
  Forall (λ m', ∃ g', Re.groups m' !! 0%nat = Some g'
                      ∧ Py.lower g' ∈ script_guids st) pre →
  Re.groups m !! 0%nat = Some g →
  Py.lower g ∉ script_guids st →
  check_matches path (pre ++ m :: post) st
  = (inr post, with_missing (relpath path root, Py.lower g) st).
Proof.
  intros Hpre Hg Hno. induction Hpre as [|m' pre (g' & Hg' & Hin) _ IH].
  - simpl app. rewrite check_matches_cons, Hg. by rewrite decide_False.
  - rewrite <- app_comm_cons, check_matches_cons, Hg'. by rewrite decide_True.
Qed.

Lemma first_missing_first guids pre m post g :
  Forall (λ m', ∃ g', Re.groups m' !! 0%nat = Some g'
                      ∧ Py.lower g' ∈ guids) pre →
  Re.groups m !! 0%nat = Some g →
  Py.lower g ∉ guids →
  first_missing guids (pre ++ m :: post) = Some (Py.lower g).
Proof.
  intros Hpre Hg Hno. induction Hpre as [|m' pre (g' & Hg' & Hin) _ IH]; simpl.
  - rewrite Hg. by rewrite decide_False.
  - rewrite Hg'. by rewrite decide_True.
Qed.

(** A list of matches with a missing guid splits at the first one. *)
Lemma first_absent_split (guids : gset string) ms :
  Forall (λ m, is_Some (Re.groups m !! 0%nat)) ms →
  (∃ m g, m ∈ ms ∧ Re.groups m !! 0%nat = Some g ∧ Py.lower g ∉ guids) →
  ∃ pre m post g,
    ms = pre ++ m :: post
    ∧ Forall (λ m', ∃ g', Re.groups m' !! 0%nat = Some g'
                          ∧ Py.lower g' ∈ guids) pre
    ∧ Re.groups m !! 0%nat = Some g
    ∧ Py.lower g ∉ guids.
Proof.
  induction 1 as [|m0 ms [g0 Hg0] _ IH]; intros (m & g & Hin & Hg & Hno).
  - by apply elem_of_nil in Hin.
  - destruct (decide (Py.lower g0 ∈ guids)) as [Hin0|Hno0].
    + apply elem_of_cons in Hin as [->|Hin]; [congruence|].
      destruct IH as (pre & m1 & post & g1 & -> & Hpre & Hg1 & Hno1); [by eauto|].
      exists (m0 :: pre), m1, post, g1. split_and!; [done| |done..].
      constructor; eauto.
    + exists [], m0, ms, g0. split_and!; [done|constructor|done..].
Qed.

End FileFacts.

(** ** Two listings of the same files *)

Lemma omap_pointwise {A B} (f g : A → option B) (l : list A) :
  (∀ x, f x = g x) → omap f l = omap g l.
Proof.
  intros Hfg. induction l as [|x l IH]; [done|].
  csimpl. by rewrite Hfg, IH.
Qed.

Section SameFiles.

Context `{OsPath} (fs1 fs2 : filesystem).
Hypothesis Hsame : same_files fs1 fs2.

Lemma collected_same e : collected fs1 e = collected fs2 e.
Proof. unfold collected, declared. by rewrite Hsame. Qed.

Lemma recorded_same guids e : recorded fs1 guids e = recorded fs2 guids e.
Proof. unfold recorded. by rewrite Hsame. Qed.

Lemma collected_set_same :
  walk_files (os_walk fs1 root) ≡ₚ walk_files (os_walk fs2 root) →
  collected_set fs1 = collected_set fs2.
Proof.
  intros Hperm. unfold collected_set. rewrite Hperm.
  f_equal. apply omap_pointwise, collected_same.
Qed.

Lemma recorded_set_same :
  walk_files (os_walk fs1 root) ≡ₚ walk_files (os_walk fs2 root) →
  walk_files (os_walk fs1 assets_root) ≡ₚ walk_files (os_walk fs2 assets_root) →
  recorded_set fs1 = recorded_set fs2.
Proof.
  intros Hroot Hassets. unfold recorded_set.
  rewrite (collected_set_same Hroot), Hassets.
  f_equal. apply omap_pointwise, recorded_same.
Qed.

End SameFiles.

(** ** Failing reads *)

Section FailureFacts.

Lemma text_of_error pre e post : text_of (readable pre ++ inl e :: post) = None.
Proof.
  induction pre as [|l pre IH]; [done|].
  rewrite readable_cons. simpl. by rewrite IH.
Qed.

Lemma text_of_readable ls : text_of (readable ls) = Some (foldr String.app "" ls).
Proof.
  induction ls as [|l ls IH]; [done|].
  change (readable (l :: ls)) with (inr l :: readable ls : handle).
  simpl. by rewrite IH.
Qed.

(** The guid that the loop over the matches reports is not in the set. *)
Lemma first_missing_absent guids ms g :
  first_missing guids ms = Some g → g ∉ guids.
Proof.
  induction ms as [|m ms IH]; simpl; [done|].
  destruct (Re.groups m !! 0%nat) as [g'|]; [|done].
  case_decide; [done|]. by intros [= <-].
Qed.

End FailureFacts.

(** ** Suffixes and case *)

Section SuffixFacts.

(** A suffix that differs from [x] only by case is not [x]. *)
Lemma endswith_other_case base sfx x :
  String.length sfx = String.length x → sfx ≠ x →
  Py.endswith (base +:+ sfx) x = false.
Proof.
  intros Hlen Hne. apply not_true_is_false. intros [b Hb]%endswith_inv.
  by apply Hne, (str_app_inj_length base b).
Qed.

Lemma endswith_any_lower base ext :
  Py.lower ext ∈ target_exts →
  Py.endswith_any (Py.lower (base +:+ ext)) target_exts = true.
Proof.
  intros Hext. unfold Py.endswith_any. apply existsb_exists.
  exists (Py.lower ext). split; [by apply list_elem_of_In|].
  rewrite lower_app. apply endswith_app.
Qed.

(** A guid with a capital letter is the lower-case form of no guid. *)
Lemma lower_ne_upper g G :
  hex32 g → some_char is_upper_hex_letter G = true → Py.lower g ≠ G.
Proof.
  intros Hg HG <-. by rewrite lower_hex32_no_upper in HG.
Qed.

End SuffixFacts.

(** * The claims *)

(** C1.  For an asset file (a name with a recognised extension, opened
    and read without error) whose text has a match of the pattern with a
    lower-cased guid outside [script_guids], the loop body records exactly
    one pair for the file: the matches split at the first one whose guid
    is missing, every match before it has its guid in the set and does
    not stop the loop, the state gains the pair of the file's relative
    path and that guid and nothing else, and the loop leaves the matches
    behind it unvisited. *)
Theorem C1_first_missing_reference `{OsPath} (fs : filesystem) d n st fh text :
  Py.endswith_any (Py.lower n) target_exts = true →
  os_open fs (join d n) = inr fh →
  text_of fh = Some text →
  (∃ m g, m ∈ Re.finditer pattern text
          ∧ Re.groups m !! 0%nat = Some g
          ∧ Py.lower g ∉ script_guids st) →
  ∃ pre m post g,
    Re.finditer pattern text = pre ++ m :: post
    ∧ Forall (λ m', ∃ g', Re.groups m' !! 0%nat = Some g'
                          ∧ Py.lower g' ∈ script_guids st) pre
    ∧ Re.groups m !! 0%nat = Some g
    ∧ (Py.lower g ∉ script_guids st)
    ∧ scan_file fs d n st
      = (inr tt, with_missing (relpath (join d n) root, Py.lower g) st)
    ∧ check_matches (join d n) (Re.finditer pattern text) st
      = (inr post, with_missing (relpath (join d n) root, Py.lower g) st).
Proof.
  intros Hext Hopen Htext Hex.
  destruct (first_absent_split (script_guids st) (Re.finditer pattern text)
              (finditer_pattern_groups text) Hex)
    as (pre & m & post & g & Hsplit & Hpre & Hg & Hno).
  exists pre, m, post, g. split_and!; [done..| |].
  - rewrite scan_file_spec. unfold recorded. cbn [fst snd].
    rewrite Hext, Hopen, Htext. simpl. rewrite Hsplit.
    by rewrite (first_missing_first _ _ _ _ g).
  - rewrite Hsplit. by apply check_matches_first.
Qed.

Lemma C1_witness :
  ∃ pre m post g,
    Re.finditer pattern
      (script_line GUID_PLAYER +:+ script_line guid_gone +:+
       script_line guid_lost +:+ "") = pre ++ m :: post
    ∧ Forall (λ m', ∃ g', Re.groups m' !! 0%nat = Some g'
                          ∧ Py.lower g' ∈ script_guids example_state) pre
    ∧ Re.groups m !! 0%nat = Some g
    ∧ (Py.lower g ∉ script_guids example_state)
    ∧ scan_file (H:=example_path) example_fs assets_dir "Level.UNITY" example_state
      = (inr tt,
         with_missing ("Assets\Level.UNITY", Py.lower g) example_state)
    ∧ check_matches (H:=example_path) "P:\\PacBros\Assets\Level.UNITY"
        (Re.finditer pattern
           (script_line GUID_PLAYER +:+ script_line guid_gone +:+
            script_line guid_lost +:+ "")) example_state
      = (inr post,
         with_missing ("Assets\Level.UNITY", Py.lower g) example_state).
Proof.
  apply (C1_first_missing_reference (H:=example_path) example_fs assets_dir
           "Level.UNITY" example_state
           (readable [script_line GUID_PLAYER; script_line guid_gone;
                      script_line guid_lost])).
  - vm_compute. reflexivity.
  - vm_compute. reflexivity.
  - vm_compute. reflexivity.
  - exists (Re.mk_match [guid_gone]), guid_gone. split; [|split].
    + apply (list_elem_of_lookup_2 _ 1%nat). vm_compute. reflexivity.
    + reflexivity.
    + apply (bool_decide_unpack _). vm_compute. exact I.
Defined.

(** C2.  For a file whose name ends with [.cs.meta] and which opens: if
    its lines are read without error up to the first one that begins with
    [guid: ], the loop body adds to [script_guids] the text after the first
    colon of that line, trimmed, and nothing else, and the loop over the
    lines leaves everything after that line unread; if all its lines are
    read and none begins with [guid: ], the state does not change. *)
Theorem C2_first_guid_line_collected `{OsPath} (fs : filesystem) d n st fh :
  Py.endswith n ".cs.meta" = true →
  os_open fs (join d n) = inr fh →
  (∀ pre x post,
     fh = readable pre ++ inr ("guid: " +:+ x) :: post →
     no_guid_line pre →
     Py.split_1 ":" ("guid: " +:+ x) = ["guid"; " " +:+ x]
     ∧ collect_file fs d n st = (inr tt, with_guid (Py.strip (" " +:+ x)) st)
     ∧ collect_lines fh st = (inr post, with_guid (Py.strip (" " +:+ x)) st))
  ∧ (∀ ls,
       fh = readable ls → no_guid_line ls →
       collect_file fs d n st = (inr tt, st)).
Proof.
  intros Hname Hopen. split.
  - intros pre x post -> Hpre. split_and!; [reflexivity| |].
    + rewrite collect_file_spec. unfold collected, declared. cbn [fst snd].
      rewrite Hname, Hopen. by rewrite guid_line_found.
    + by apply collect_lines_found.
  - intros ls -> Hls. rewrite collect_file_spec. unfold collected, declared.
    cbn [fst snd]. rewrite Hname, Hopen. by rewrite guid_line_none.
Qed.

Lemma C2_witness :
  collect_file (H:=example_path) example_fs assets_dir "Player.cs.meta"
    (mk_state ∅ ∅ [])
  = (inr tt, with_guid guid_player (mk_state ∅ ∅ []))
  ∧ collect_lines (readable (meta_lines guid_player)) (mk_state ∅ ∅ [])
    = (inr (readable ["MonoImporter:
"]), with_guid guid_player (mk_state ∅ ∅ [])).
Proof.
  destruct (C2_first_guid_line_collected (H:=example_path) example_fs
              assets_dir "Player.cs.meta" (mk_state ∅ ∅ [])
              (readable (meta_lines guid_player)))
    as [Hfound _].
  - vm_compute. reflexivity.
  - vm_compute. reflexivity.
  - destruct (Hfound ["fileFormatVersion: 2
"] (guid_player +:+ "
") (readable ["MonoImporter:
"])) as (_ & Hfile & Hlines).
    + reflexivity.
    + constructor; [reflexivity|constructor].
    + split; [exact Hfile|exact Hlines].
Defined.

(** C3, as stated, fails.  The record has more adjacent tokens than the
    pattern has places for white space: a blank after the opening brace,
    before a colon or before the comma keeps the pattern from matching,
    and a prefab whose only binding is written that way is not reported
    although no sidecar declares its guid. *)
Lemma C3_counterexample :
  hex32 guid_gone
  ∧ Re.finditer pattern ("m_Script: { fileID: 11500000, guid: " +:+ guid_gone) = []
  ∧ Re.finditer pattern ("m_Script : {fileID: 11500000, guid: " +:+ guid_gone) = []
  ∧ Re.finditer pattern ("m_Script: {fileID : 11500000, guid: " +:+ guid_gone) = []
  ∧ Re.finditer pattern ("m_Script: {fileID: 11500000 , guid: " +:+ guid_gone) = []
  ∧ Re.finditer pattern ("m_Script: {fileID: 11500000, guid : " +:+ guid_gone) = []
  ∧ run (H:=example_path) spaced_brace_fs
    = (inr tt, mk_state ∅ ∅ ["No missing scripts under Assets"]).
Proof.
  split_and!.
  - split; reflexivity.
  - vm_compute. reflexivity.
  - vm_compute. reflexivity.
  - vm_compute. reflexivity.
  - vm_compute. reflexivity.
  - vm_compute. reflexivity.
  - vm_compute. reflexivity.
Qed.

(** C3, amended.  White space is insignificant after each of the four
    tokens [m_Script:], [{fileID:], [11500000,] and [guid:]: whatever
    white space, none included, stands at these four places, the pattern
    matches the record and captures its guid of 32 hexadecimal digits;
    wherever the record stands in a text, the iterator yields that match,
    and [group(1)] of it is the guid. *)
Theorem C3_white_space_after_tokens w1 w2 w3 w4 g pre rest st :
  white w1 → white w2 → white w3 → white w4 → hex32 g →
  Re.match_here true (Re.nodes pattern) (script_ref w1 w2 w3 w4 g +:+ rest)
  = Some ([g], rest)
  ∧ (∃ ms, Re.finditer pattern (pre +:+ script_ref w1 w2 w3 w4 g +:+ rest)
           = ms ++ Re.mk_match [g] :: Re.finditer pattern rest)
  ∧ group_1 (Re.mk_match [g]) st = (inr g, st).
Proof.
  intros H1 H2 H3 H4 Hg. split_and!.
  - by apply pattern_match_ref.
  - by apply finditer_reaches_ref.
  - reflexivity.
Qed.

Lemma C3_witness :
  Re.match_here true (Re.nodes pattern)
    ("m_Script:{fileID:	 11500000,
guid:   " +:+ guid_gone +:+ ", type: 3}")
  = Some ([guid_gone], ", type: 3}")
  ∧ script_ref " " " " " " " " guid_gone
    = "m_Script: {fileID: 11500000, guid: " +:+ guid_gone.
Proof.
  split; [|reflexivity].
  refine (proj1 (C3_white_space_after_tokens "" "	 " "
" "   " guid_gone "" ", type: 3}" (mk_state ∅ ∅ []) _ _ _ _ _)).
  - reflexivity.
  - reflexivity.
  - reflexivity.
  - reflexivity.
  - split; reflexivity.
Defined.

(** C4.  No [OSError] leaves the script, and none changes what it has
    accumulated: the script ends normally from every state and for every
    file system; the first walk ends normally and only adds to
    [script_guids]; a file whose [open] fails leaves the state of either
    walk as it was, and so does a file one of whose reads fails, in the
    second walk always and in the first walk when the failing read comes
    before any guid line. *)
Theorem C4_unreadable_files_skipped `{OsPath} (fs : filesystem) :
  (∀ st, ∃ st', main fs st = (inr tt, st'))
  ∧ (∀ st, ∃ st', collector fs st = (inr tt, st')
                  ∧ script_guids st ⊆ script_guids st'
                  ∧ missing st' = missing st)
  ∧ (∀ d n st e,
       os_open fs (join d n) = inl e →
       collect_file fs d n st = (inr tt, st)
       ∧ scan_file fs d n st = (inr tt, st))
  ∧ (∀ d n st pre e post,
       os_open fs (join d n) = inr (readable pre ++ inl e :: post) →
       (no_guid_line pre → collect_file fs d n st = (inr tt, st))
       ∧ scan_file fs d n st = (inr tt, st)).
Proof.
  split_and!.
  - intros st. rewrite main_spec. by eexists.
  - intros st. rewrite collector_spec. eexists. split; [done|].
    simpl. split; [|done]. apply union_subseteq_r.
  - intros d n st e Hopen. split.
    + rewrite collect_file_spec. unfold collected, declared. cbn [fst snd].
      rewrite Hopen. by destruct (Py.endswith n ".cs.meta").
    + rewrite scan_file_spec. unfold recorded. cbn [fst snd].
      rewrite Hopen. by destruct (Py.endswith_any _ _).
  - intros d n st pre e post Hopen. split.
    + intros Hpre. rewrite collect_file_spec. unfold collected, declared.
      cbn [fst snd]. rewrite Hopen, guid_line_error by done.
      by destruct (Py.endswith n ".cs.meta").
    + rewrite scan_file_spec. unfold recorded. cbn [fst snd].
      rewrite Hopen, text_of_error. by destruct (Py.endswith_any _ _).
Qed.

(** C5.  A run ends normally.  If [missing] is empty at the end, the
    output is the single line [No missing scripts under Assets];
    otherwise it is one line [rel -> guid] per pair of [missing], each pair
    once, in the order of the pairs: by path, then by guid.  Every path of
    a pair is the path, relative to the root, of a file that the second
    walk listed. *)
Theorem C5_report_output `{OsPath} (fs : filesystem) :
  let st := (run fs).2 in
  (run fs).1 = inr tt
  ∧ (missing st = ∅ → stdout st = ["No missing scripts under Assets"])
  ∧ (missing st ≠ ∅ →
     stdout st = (λ r, r.1 +:+ " -> " +:+ r.2) <$> sorted (missing st))
  ∧ sorted (missing st) ≡ₚ elements (missing st)
  ∧ NoDup (sorted (missing st))
  ∧ StronglySorted tuple_le (sorted (missing st))
  ∧ (∀ r, r ∈ missing st →
          ∃ d n, (d, n) ∈ walk_files (os_walk fs assets_root)
                 ∧ r.1 = relpath (join d n) root).
Proof.
  unfold run. rewrite main_spec. cbn [fst snd missing stdout app].
  destruct (sorted_spec (recorded_set fs)) as (Hperm & Hnodup & Hsorted).
  split_and!; [done| | |done..|].
  - intros Hempty. unfold report_lines. by rewrite decide_False by auto.
  - intros Hne. unfold report_lines. by rewrite decide_True.
  - intros r Hr. unfold recorded_set in Hr.
    apply elem_of_list_to_set, list_elem_of_omap in Hr as ([d n] & Hin & Hrec).
    exists d, n. split; [done|]. unfold recorded in Hrec. cbn [fst snd] in Hrec.
    destruct (Py.endswith_any _ _); [|done].
    destruct (os_open fs (join d n)) as [e|fh]; [done|].
    destruct (text_of fh) as [text|]; [|done]. simpl in Hrec.
    destruct (first_missing _ _) as [g|]; [|done]. simpl in Hrec.
    by simplify_eq.
Qed.

(** C6.  A reference record whose guid is written with capital letters,
    whatever its place in the text of an asset file, is found by the
    iterator and its guid captured as written; when the lower-case form of
    the guid is in [script_guids], the loop over the matches passes over
    that match without recording anything, and scanning the file adds no
    pair with that guid. *)
Theorem C6_reference_case_insensitive `{OsPath} (fs : filesystem)
    d n st w1 w2 w3 w4 G pre rest fh :
  white w1 → white w2 → white w3 → white w4 → hex32 G →
  Py.lower G ∈ script_guids st →
  os_open fs (join d n) = inr fh →
  text_of fh = Some (pre +:+ script_ref w1 w2 w3 w4 G +:+ rest) →
  (∃ ms, Re.finditer pattern (pre +:+ script_ref w1 w2 w3 w4 G +:+ rest)
         = ms ++ Re.mk_match [G] :: Re.finditer pattern rest)
  ∧ (∀ path ms',
       check_matches path (Re.mk_match [G] :: ms') st
       = check_matches path ms' st)
  ∧ (∀ rel, (rel, Py.lower G) ∈ missing (scan_file fs d n st).2 →
            (rel, Py.lower G) ∈ missing st).
Proof.
  intros H1 H2 H3 H4 HG Hin Hopen Htext. split_and!.
  - by apply finditer_reaches_ref.
  - intros path ms'. rewrite check_matches_cons. simpl. by rewrite decide_True.
  - intros rel. rewrite scan_file_spec. unfold recorded. cbn [fst snd].
    destruct (Py.endswith_any _ _); [|done]. rewrite Hopen, Htext. simpl.
    destruct (first_missing _ _) as [g|] eqn:Hg; [|done]. simpl.
    apply first_missing_absent in Hg.
    intros [Heq%elem_of_singleton|?]%elem_of_union; [|done].
    by simplify_eq.
Qed.

Lemma C6_witness :
  check_matches (H:=example_path) "P:\\PacBros\Assets\Level.UNITY"
    [Re.mk_match [GUID_PLAYER]; Re.mk_match [guid_gone]] example_state
  = check_matches (H:=example_path) "P:\\PacBros\Assets\Level.UNITY"
      [Re.mk_match [guid_gone]] example_state.
Proof.
  refine (proj1 (proj2 (C6_reference_case_insensitive (H:=example_path)
    example_fs assets_dir "Level.UNITY" example_state " " " " " " " "
    GUID_PLAYER "  "
    (", type: 3}
" +:+ script_line guid_gone +:+ script_line guid_lost)
    (readable [script_line GUID_PLAYER; script_line guid_gone;
               script_line guid_lost]) _ _ _ _ _ _ _ _)) _ _).
  - reflexivity.
  - reflexivity.
  - reflexivity.
  - reflexivity.
  - split; reflexivity.
  - apply (bool_decide_unpack _). vm_compute. exact I.
  - vm_compute. reflexivity.
  - vm_compute. reflexivity.
Defined.

(** C7.  The set that the first walk builds does not depend on the order
    of the visit: two walks that list the same files of the same file
    system, in any order, give the same [script_guids]; and, from an empty
    set, a guid is in the result exactly when some listed file with the
    sidecar suffix declares it. *)
Theorem C7_collector_order_independent `{OsPath} (fs1 fs2 : filesystem) st :
  same_files fs1 fs2 →
  walk_files (os_walk fs1 root) ≡ₚ walk_files (os_walk fs2 root) →
  script_guids st = ∅ →
  (collector fs1 st).1 = inr tt
  ∧ script_guids (collector fs1 st).2 = script_guids (collector fs2 st).2
  ∧ (∀ g, g ∈ script_guids (collector fs1 st).2 ↔
          ∃ d n, (d, n) ∈ walk_files (os_walk fs1 root)
                 ∧ Py.endswith n ".cs.meta" = true
                 ∧ declares fs1 (join d n) g).
Proof.
  intros Hsame Hperm Hempty. rewrite !collector_spec. cbn [fst snd script_guids].
  rewrite Hempty, !(right_id_L ∅ (∪)). split_and!; [done| |].
  - by apply collected_set_same.
  - intros g. unfold collected_set.
    rewrite elem_of_list_to_set, list_elem_of_omap. split.
    + intros ([d n] & Hin & Hg). exists d, n. split; [done|].
      unfold collected in Hg. cbn [fst snd] in Hg.
      destruct (Py.endswith n ".cs.meta"); [|done].
      split; [done|]. by apply declared_declares.
    + intros (d & n & Hin & Hname & Hg). exists (d, n). split; [done|].
      unfold collected. cbn [fst snd]. rewrite Hname.
      by apply declared_declares.
Qed.

Lemma C7_witness :
  script_guids
    (collector (H:=example_path) example_fs (mk_state ∅ ∅ [])).2
  = script_guids
      (collector (H:=example_path) example_fs_reordered (mk_state ∅ ∅ [])).2.
Proof.
  refine (proj1 (proj2 (C7_collector_order_independent (H:=example_path)
    example_fs example_fs_reordered (mk_state ∅ ∅ []) _ _ _))).
  - intros path. reflexivity.
  - apply (bool_decide_unpack _). vm_compute. exact I.
  - reflexivity.
Defined.

(** C8.  Two runs over the same files print the same lines, whatever the
    order in which the walks of each run list the files; both end
    normally. *)
Theorem C8_runs_print_the_same `{OsPath} (fs1 fs2 : filesystem) :
  same_files fs1 fs2 →
  walk_files (os_walk fs1 root) ≡ₚ walk_files (os_walk fs2 root) →
  walk_files (os_walk fs1 assets_root) ≡ₚ walk_files (os_walk fs2 assets_root) →
  stdout (run fs1).2 = stdout (run fs2).2
  ∧ (run fs1).1 = inr tt
  ∧ (run fs2).1 = inr tt.
Proof.
  intros Hsame Hroot Hassets. unfold run. rewrite !main_spec.
  cbn [fst snd stdout]. by rewrite (recorded_set_same fs1 fs2 Hsame Hroot Hassets).
Qed.

Lemma C8_witness :
  stdout (run (H:=example_path) example_fs).2
  = stdout (run (H:=example_path) example_fs_reordered).2.
Proof.
  refine (proj1 (C8_runs_print_the_same (H:=example_path)
    example_fs example_fs_reordered _ _ _)).
  - intros path. reflexivity.
  - apply (bool_decide_unpack _). vm_compute. exact I.
  - apply (bool_decide_unpack _). vm_compute. exact I.
Defined.

(** C9, as stated, fails.  In a project whose sidecars declare a guid
    once with capital letters and once in lower case, the prefab that
    binds the guid is not reported; and in a project whose only sidecar
    declares the guid with capital letters, a prefab that binds a deleted
    script first and that guid second is reported for the deleted script
    only. *)
Lemma C9_counterexample :
  (some_char is_upper_hex_letter GUID_PLAYER = true
   ∧ GUID_PLAYER ∈ script_guids (run (H:=example_path) twice_declared_fs).2
   ∧ Re.finditer pattern (script_line GUID_PLAYER +:+ "")
     = [Re.mk_match [GUID_PLAYER]]
   ∧ run (H:=example_path) twice_declared_fs
     = (inr tt,
        mk_state {[GUID_PLAYER; guid_player]} ∅
          ["No missing scripts under Assets"]))
  ∧ (Re.finditer pattern
       (script_line guid_gone +:+ script_line GUID_PLAYER +:+ "")
     = [Re.mk_match [guid_gone]; Re.mk_match [GUID_PLAYER]]
     ∧ run (H:=example_path) upper_declared_fs
       = (inr tt,
          mk_state {[GUID_PLAYER]} {[("Assets\Hero.prefab", guid_gone)]}
            ["Assets\Hero.prefab -> deadbeefdeadbeefdeadbeefdeadbeef"])).
Proof.
  split_and!.
  - reflexivity.
  - apply (bool_decide_unpack _). vm_compute. exact I.
  - vm_compute. reflexivity.
  - vm_compute. reflexivity.
  - vm_compute. reflexivity.
  - vm_compute. reflexivity.
Qed.

(** C9, amended.  Let [G] be a guid with a capital letter A-F.  The first
    walk stores what a sidecar declares as it is read, trimmed but neither
    lower-cased nor checked, so it stores [G] when a sidecar declares [G];
    no guid that the second walk compares is [G], so the presence of [G]
    in [script_guids] never changes the outcome of a membership test; and
    an asset file with a reference to [G], in any case, is reported for
    [G] in lower case when that lower-case form is not in [script_guids]
    and every earlier reference of the file is in it. *)
Theorem C9_upper_case_declaration `{OsPath} (fs : filesystem) G :
  some_char is_upper_hex_letter G = true →
  (∀ d n st pre x post,
     Py.endswith n ".cs.meta" = true →
     os_open fs (join d n) = inr (readable pre ++ inr ("guid: " +:+ x) :: post) →
     no_guid_line pre →
     script_guids (collect_file fs d n st).2
     = {[Py.strip (" " +:+ x)]} ∪ script_guids st)
  ∧ (∀ text m g (guids : gset string),
       m ∈ Re.finditer pattern text →
       Re.groups m !! 0%nat = Some g →
       Py.lower g ≠ G
       ∧ (Py.lower g ∈ {[G]} ∪ guids ↔ Py.lower g ∈ guids))
  ∧ (∀ d n st fh text pre m post g,
       Py.endswith_any (Py.lower n) target_exts = true →
       os_open fs (join d n) = inr fh →
       text_of fh = Some text →
       Re.finditer pattern text = pre ++ m :: post →
       Forall (λ m', ∃ g', Re.groups m' !! 0%nat = Some g'
                           ∧ Py.lower g' ∈ script_guids st) pre →
       Re.groups m !! 0%nat = Some g →
       Py.lower g = Py.lower G →
       Py.lower G ∉ script_guids st →
       scan_file fs d n st
       = (inr tt, with_missing (relpath (join d n) root, Py.lower G) st)).
Proof.
  intros HG. split_and!.
  - intros d n st pre x post Hname Hopen Hpre.
    rewrite collect_file_spec. unfold collected, declared. cbn [fst snd].
    rewrite Hname, Hopen. by rewrite guid_line_found.
  - intros text m g guids (g' & Hg' & Hhex)%finditer_pattern_elem Hg.
    rewrite Hg' in Hg. simplify_eq/=.
    pose proof (lower_ne_upper _ _ Hhex HG) as Hne.
    split; [done|]. rewrite elem_of_union, elem_of_singleton.
    split; [intros [?|?]; done|by right].
  - intros d n st fh text pre m post g Hext Hopen Htext Hsplit Hpre Hg Heq Hno.
    rewrite scan_file_spec. unfold recorded. cbn [fst snd].
    rewrite Hext, Hopen, Htext. simpl. rewrite Hsplit.
    rewrite (first_missing_first _ _ _ _ g); [by rewrite Heq|done..|].
    by rewrite Heq.
Qed.

Lemma C9_witness :
  scan_file (H:=example_path) example_fs assets_dir "Level.UNITY"
    (mk_state {[GUID_PLAYER]} ∅ [])
  = (inr tt,
     with_missing ("Assets\Level.UNITY", guid_player)
       (mk_state {[GUID_PLAYER]} ∅ [])).
Proof.
  refine (proj2 (proj2 (C9_upper_case_declaration (H:=example_path)
    example_fs GUID_PLAYER _)) assets_dir "Level.UNITY"
    (mk_state {[GUID_PLAYER]} ∅ [])
    (readable [script_line GUID_PLAYER; script_line guid_gone;
               script_line guid_lost])
    (script_line GUID_PLAYER +:+ script_line guid_gone +:+
     script_line guid_lost +:+ "")
    [] (Re.mk_match [GUID_PLAYER])
    [Re.mk_match [guid_gone]; Re.mk_match [guid_lost]] GUID_PLAYER
    _ _ _ _ _ _ _ _).
  - reflexivity.
  - vm_compute. reflexivity.
  - vm_compute. reflexivity.
  - vm_compute. reflexivity.
  - vm_compute. reflexivity.
  - constructor.
  - reflexivity.
  - reflexivity.
  - apply (bool_decide_unpack _). vm_compute. exact I.
Defined.

(** C10.  The test of the sidecar suffix looks at the name as it is, the
    test of the asset extension at the name in lower case: a name whose
    suffix is [.cs.meta] in another case is skipped by the first walk and
    leaves the state as it was, whereas a name whose extension is one of
    the asset extensions in any case passes the test of the second walk,
    which opens and scans the file. *)
Theorem C10_suffix_tests_and_case `{OsPath} (fs : filesystem)
    d st base sfx ext :
  Py.lower sfx = ".cs.meta" → sfx ≠ ".cs.meta" →
  Py.lower ext ∈ target_exts →
  Py.endswith (base +:+ sfx) ".cs.meta" = false
  ∧ collect_file fs d (base +:+ sfx) st = (inr tt, st)
  ∧ Py.endswith_any (Py.lower (base +:+ ext)) target_exts = true
  ∧ scan_file fs d (base +:+ ext) st = scan_path fs (join d (base +:+ ext)) st
  ∧ collect_file fs d (base +:+ ".cs.meta") st
    = collect_path fs (join d (base +:+ ".cs.meta")) st.
Proof.
  intros Hlow Hne Hext.
  assert (Py.endswith (base +:+ sfx) ".cs.meta" = false) as Hskip.
  { apply endswith_other_case; [|done]. by rewrite <- (lower_length sfx), Hlow. }
  pose proof (endswith_any_lower base ext Hext) as Hscan.
  split_and!; [done| |done| |].
  - unfold collect_file. by rewrite Hskip.
  - unfold scan_file. by rewrite Hscan.
  - unfold collect_file. by rewrite endswith_app.
Qed.

Lemma C10_witness :
  Py.endswith "Foo.CS.META" ".cs.meta" = false
  ∧ collect_file (H:=example_path) example_fs assets_dir "Foo.CS.META"
      example_state = (inr tt, example_state)
  ∧ Py.endswith_any (Py.lower "Level.PREFAB") target_exts = true
  ∧ scan_file (H:=example_path) example_fs assets_dir "Level.PREFAB"
      example_state
    = scan_path (H:=example_path) example_fs "P:\\PacBros\Assets\Level.PREFAB"
        example_state
  ∧ collect_file (H:=example_path) example_fs assets_dir "Foo.cs.meta"
      example_state
    = collect_path example_fs "P:\\PacBros\Assets\Foo.cs.meta" example_state.
Proof.
  refine (C10_suffix_tests_and_case (H:=example_path) example_fs assets_dir
            example_state "Foo" ".CS.META" ".PREFAB" _ _ _).
  - reflexivity.
  - discriminate.
  - apply (bool_decide_unpack _). vm_compute. exact I.
Defined.

(** * Runs of the example projects *)

(** The example project: the sidecar that cannot be opened and the asset
    that cannot be read are passed over, the scene in upper case is
    scanned and reported for its first deleted script only, and the lines
    come out in order. *)
Example example_run :
  run (H:=example_path) example_fs
  = (inr tt,
     mk_state {[guid_player; guid_enemy]}
       {[("Assets\Level.UNITY", guid_gone); ("Assets\Boss.asset", guid_lost)]}
       ["Assets\Boss.asset -> feedfacefeedfacefeedfacefeedface";
        "Assets\Level.UNITY -> deadbeefdeadbeefdeadbeefdeadbeef"]).
Proof. vm_compute. reflexivity. Qed.

(** An empty [Assets] directory. *)
Example empty_run :
  stdout (run (H:=example_path) empty_fs).2 = ["No missing scripts under Assets"].
Proof. vm_compute. reflexivity. Qed.

(** * Further properties of the script *)

(** ** What the pattern matches, exactly *)

Section PatternShape.

Implicit Types (s k p t g w : string) (re : list Re.node).

Lemma lower_char_below c x :
  Py.lower_char c = x → (N_of_ascii x <? 97) = true → c = x.
Proof.
  intros <-. destruct c as [[] [] [] [] [] [] [] []]; vm_compute;
    intros Hx; first [reflexivity|discriminate Hx].
Qed.

Lemma lower_char_space c : Py.is_space (Py.lower_char c) = Py.is_space c.
Proof. by destruct c as [[] [] [] [] [] [] [] []]. Qed.

(** A literal prefix of the pattern, with [IGNORECASE], consumes any text
    of the same lower-case form, and nothing else. *)
Lemma match_here_lits_ci p k re s :
  Py.lower k = Py.lower p →
  Re.match_here true (Re.lits p ++ re) (k +:+ s) = Re.match_here true re s.
Proof.
  revert k. induction p as [|c p IH]; intros [|d k] Hk; simpl in Hk; try done.
  simplify_eq.
  rewrite lits_cons, str_app_cons, <- app_comm_cons, match_here_one.
  simpl. rewrite bool_decide_eq_true_2 by done. by apply IH.
Qed.

Lemma match_here_lits_inv p re s r :
  Re.match_here true (Re.lits p ++ re) s = Some r →
  ∃ k s', s = k +:+ s' ∧ Py.lower k = Py.lower p
          ∧ Re.match_here true re s' = Some r.
Proof.
  revert s. induction p as [|c p IH]; intros s Hm.
  - exists "", s. by split_and!.
  - rewrite lits_cons, <- app_comm_cons in Hm. destruct s as [|d s]; [done|].
    rewrite match_here_one in Hm. simpl in Hm. case_bool_decide as Hd; [|done].
    destruct (IH _ Hm) as (k & s' & -> & Hk & Hre).
    exists (String d k), s'. split_and!; [done| |done].
    simpl. by rewrite Hk, Hd.
Qed.

Lemma match_here_star_inv ic a re s r :
  Re.match_here ic (Re.Star a :: re) s = Some r →
  ∃ w s', s = w +:+ s' ∧ all_chars (Re.atom_match ic a) w = true
          ∧ Re.match_here ic re s' = Some r.
Proof.
  induction s as [|c s IH]; rewrite match_here_star; intros Hm.
  - exists "", "". by split_and!.
  - destruct (Re.atom_match ic a c) eqn:Hc;
      [|by exists "", (String c s); split_and!].
    destruct (Re.match_here ic (Re.Star a :: re) s) as [r'|] eqn:Hs;
      [|by exists "", (String c s); split_and!].
    simplify_eq. destruct (IH eq_refl) as (w & s' & -> & Hw & Hre).
    exists (String c w), s'. split_and!; [done| |done]. simpl. by rewrite Hc.
Qed.

Lemma lower_eq_below k p :
  all_chars (λ x, N_of_ascii x <? 97) p = true → Py.lower k = p → k = p.
Proof.
  revert k. induction p as [|c p IH]; intros [|d k] Hp Hk; simpl in *; try done.
  apply andb_true_iff in Hp as [Hc Hp]. simplify_eq.
  f_equal; [by apply lower_char_below|by apply IH].
Qed.

Lemma lower_stops k c p rest :
  Py.lower k = String c p → Py.is_space c = false →
  stops Re.Space true (k +:+ rest).
Proof.
  destruct k as [|d k]; [done|]. simpl. intros [= <- _] Hc.
  by rewrite lower_char_space in Hc.
Qed.

Lemma match_here_pattern_iff s gs r :
  Re.match_here true (Re.nodes pattern) s = Some (gs, r)
  ↔ ∃ t g, s = t +:+ r ∧ gs = [g] ∧ script_record t g.
Proof.
  rewrite pattern_nodes. split.
  - intros (k1 & s1 & -> & Hk1 & Hm)%match_here_lits_inv.
    apply match_here_star_inv in Hm as (w1 & s2 & -> & Hw1 & Hm).
    apply match_here_lits_inv in Hm as (k2 & s3 & -> & Hk2 & Hm).
    apply match_here_star_inv in Hm as (w2 & s4 & -> & Hw2 & Hm).
    apply match_here_lits_inv in Hm as (k3 & s5 & -> & Hk3 & Hm).
    apply match_here_star_inv in Hm as (w3 & s6 & -> & Hw3 & Hm).
    apply match_here_lits_inv in Hm as (k4 & s7 & -> & Hk4 & Hm).
    apply match_here_star_inv in Hm as (w4 & s8 & -> & Hw4 & Hm).
    rewrite match_here_group in Hm.
    destruct (Re.take_matching _ _ _ s8) as [[g s9]|] eqn:Hg; [|done].
    simpl in Hm. simplify_eq.
    apply take_matching_inv in Hg as (-> & Hlen & Hall).
    apply lower_eq_below in Hk3 as ->; [|done].
    exists (k1 +:+ w1 +:+ k2 +:+ w2 +:+ "11500000," +:+ w3 +:+ k4 +:+ w4 +:+ g), g.
    split_and!; [by rewrite !str_app_assoc|done|].
    exists k1, w1, k2, w2, w3, k4, w4. split_and!; try done.
    split; [done|].
    eapply all_chars_impl; [|exact Hall]. intros c Hc. by rewrite <- hex_set_match.
  - intros (t & g & -> & -> & k1 & w1 & k2 & w2 & w3 & k4 & w4
            & -> & Hk1 & Hk2 & Hk4 & Hw1 & Hw2 & Hw3 & Hw4 & Hg).
    rewrite !str_app_assoc.
    rewrite match_here_lits_ci by done.
    apply match_here_star_run; [done|by eapply lower_stops|].
    rewrite match_here_lits_ci by done.
    apply match_here_star_run; [done..|].
    rewrite (match_here_lits_ci "11500000," "11500000,") by done.
    apply match_here_star_run; [done|by eapply lower_stops|].
    rewrite match_here_lits_ci by done.
    apply match_here_star_run; [done|by apply hex32_stops_space|].
    rewrite match_here_group. pose proof (hex32_all_match _ Hg) as Hall.
    destruct Hg as [<- _]. by rewrite take_matching_app.
Qed.


(** What an anchored match leaves is the end of the text it started on. *)
Lemma take_matching_suffix ic a n s g r :
  Re.take_matching ic a n s = Some (g, r) → s = g +:+ r.
Proof. by intros (-> & _)%take_matching_inv. Qed.

Lemma match_here_suffix ic re s gs r :
  Re.match_here ic re s = Some (gs, r) → ∃ t, s = t +:+ r.
Proof.
  revert s gs r. induction re as [|[a|a|a n] re IH]; intros s gs r Hm.
  - simpl in Hm. simplify_eq. by exists "".
  - destruct s as [|c s]; [done|]. rewrite match_here_one in Hm.
    destruct (Re.atom_match ic a c); [|done].
    destruct (IH _ _ _ Hm) as [t ->]. by exists (String c t).
  - apply match_here_star_inv in Hm as (w & s' & -> & _ & Hm).
    destruct (IH _ _ _ Hm) as [t ->]. exists (w +:+ t).
    by rewrite str_app_assoc.
  - rewrite match_here_group in Hm.
    destruct (Re.take_matching ic a n s) as [[g s']|] eqn:Hg; [|done].
    destruct (Re.match_here ic re s') as [[gs' r']|] eqn:Hre; [|done].
    simplify_eq. apply take_matching_suffix in Hg as ->.
    destruct (IH _ _ _ Hre) as [t ->]. exists (g +:+ t).
    by rewrite str_app_assoc.
Qed.

(** Every element of the iterator is an anchored match at some place of
    the text. *)
Lemma finditer_from_elem_at fuel (rx : Re.regex) s m :
  m ∈ Re.finditer_from fuel rx s →
  ∃ pre s' gs r,
    s = pre +:+ s'
    ∧ Re.match_here (Re.ignorecase rx) (Re.nodes rx) s' = Some (gs, r)
    ∧ m = Re.mk_match gs.
Proof.
  revert s. induction fuel as [|fuel IH]; intros s Hm; simpl in Hm.
  - by apply elem_of_nil in Hm.
  - assert (m ∈ match s with "" => [] | String _ s' =>
                    Re.finditer_from fuel rx s' end → ∃ pre s' gs r,
              s = pre +:+ s'
              ∧ Re.match_here (Re.ignorecase rx) (Re.nodes rx) s' = Some (gs, r)
              ∧ m = Re.mk_match gs) as Hadv.
    { destruct s as [|c s]; [by intros ?%elem_of_nil|].
      intros (pre & s' & gs & r & -> & Hs' & ->)%IH.
      by exists (String c pre), s', gs, r. }
    destruct (Re.match_here _ _ s) as [[gs r]|] eqn:Hs; [|by auto].
    apply elem_of_cons in Hm as [->|Hm]; [by exists "", s, gs, r|].
    case_decide; [|by auto].
    destruct (match_here_suffix _ _ _ _ _ Hs) as [t ->].
    apply IH in Hm as (pre & s' & gs' & r' & -> & Hs' & ->).
    exists (t +:+ pre), s', gs', r'. by rewrite str_app_assoc.
Qed.

Lemma lower_char_m c : Py.lower_char c = "m"%char → c = "m"%char ∨ c = "M"%char.
Proof.
  destruct c as [[] [] [] [] [] [] [] []]; vm_compute; intros Hc;
    first [by left|by right|discriminate Hc].
Qed.

(** A record begins with an [m] in one of its cases and is not empty. *)
Lemma script_record_head t g :
  script_record t g →
  ∃ c t', t = String c t' ∧ (c = "m"%char ∨ c = "M"%char).
Proof.
  intros (k1 & w1 & k2 & w2 & w3 & k4 & w4 & -> & Hk1 & _).
  destruct k1 as [|c k1]; [done|]. simpl in Hk1.
  injection Hk1 as Hc _. exists c. eexists. split; [reflexivity|].
  by apply lower_char_m.
Qed.

Lemma pattern_blocked_ci c d p t gs r :
  c = "m"%char ∨ c = "M"%char →
  Re.match_here true (Re.nodes pattern) (String d p +:+ String c t)
  = Some (gs, r) →
  ∃ p', r = p' +:+ String c t ∧ (String.length p' ≤ String.length p)%nat.
Proof.
  intros Hc.
  rewrite pattern_nodes, str_app_cons, lits_cons, <- app_comm_cons.
  rewrite match_here_one. destruct (Re.atom_match _ _ d); [|done].
  apply match_here_blocked. by destruct Hc as [-> | ->].
Qed.

(** Wherever a record stands in a text, the iterator yields it. *)
Lemma finditer_reaches_record pre t g rest :
  script_record t g →
  ∃ ms, Re.finditer pattern (pre +:+ t +:+ rest)
        = ms ++ Re.mk_match [g] :: Re.finditer pattern rest.
Proof.
  intros Ht. destruct (script_record_head _ _ Ht) as (c & t' & Heq & Hc).
  assert (Re.finditer pattern (t +:+ rest)
          = Re.mk_match [g] :: Re.finditer pattern rest) as Hhere.
  { apply finditer_match.
    - apply match_here_pattern_iff. by exists t, g.
    - rewrite Heq, str_app_length. simpl. lia. }
  remember (String.length pre) as n eqn:Hn. revert pre Hn.
  induction n as [n IHn] using lt_wf_ind. intros pre ->.
  destruct pre as [|d p]; [by exists []|].
  assert (t +:+ rest = String c (t' +:+ rest)) as Ht' by by rewrite Heq.
  rewrite Ht', str_app_cons.
  destruct (Re.match_here true (Re.nodes pattern)
              (String d (p +:+ String c (t' +:+ rest))))
    as [[gs r]|] eqn:Hm.
  - destruct (pattern_blocked_ci c d p _ gs r Hc Hm) as (p' & -> & Hlen).
    rewrite (finditer_match pattern _ gs _ Hm);
      [|simpl; rewrite !str_app_length; lia].
    destruct (IHn (String.length p') ltac:(simpl; lia) p' eq_refl) as [ms Hms].
    rewrite <- Ht', Hms. by exists (Re.mk_match gs :: ms).
  - rewrite (finditer_no_match pattern _ _ Hm), <- Ht'.
    apply (IHn (String.length p)); [simpl; lia|done].
Qed.

Lemma finditer_pattern_iff text g :
  (∃ m, m ∈ Re.finditer pattern text ∧ Re.groups m = [g])
  ↔ ∃ pre t rest, text = pre +:+ t +:+ rest ∧ script_record t g.
Proof.
  split.
  - intros (m & (pre & s' & gs & r & -> & Hs' & ->)%finditer_from_elem_at & Hg).
    apply match_here_pattern_iff in Hs' as (t & g' & -> & -> & Ht).
    simpl in Hg. simplify_eq. by exists pre, t, r.
  - intros (pre & t & rest & -> & Ht).
    destruct (finditer_reaches_record pre t g rest Ht) as [ms ->].
    exists (Re.mk_match [g]). split; [|done].
    apply elem_of_app. right. apply elem_of_cons. by left.
Qed.


End PatternShape.

(** ** How many matches a text can hold *)

Section MatchCount.

Lemma script_record_length t g : script_record t g → (63 ≤ String.length t)%nat.
Proof.
  intros (k1 & w1 & k2 & w2 & w3 & k4 & w4 & -> & Hk1 & Hk2 & Hk4 & _ & _ & _ & _
          & [Hg _]).
  apply (f_equal String.length) in Hk1, Hk2, Hk4.
  rewrite lower_length in Hk1, Hk2, Hk4. simpl in Hk1, Hk2, Hk4.
  rewrite !str_app_length. simpl. lia.
Qed.

Lemma finditer_from_S fuel (rx : Re.regex) s :
  Re.finditer_from (S fuel) rx s =
  match Re.match_here (Re.ignorecase rx) (Re.nodes rx) s with
  | Some (gs, rest) =>
      Re.mk_match gs ::
        (if decide (String.length rest < String.length s)%nat
         then Re.finditer_from fuel rx rest
         else match s with
              | "" => []
              | String _ s' => Re.finditer_from fuel rx s'
              end)
  | None => match s with
            | "" => []
            | String _ s' => Re.finditer_from fuel rx s'
            end
  end.
Proof. reflexivity. Qed.

Lemma finditer_from_count fuel s :
  (63 * length (Re.finditer_from fuel pattern s) ≤ String.length s)%nat.
Proof.
  revert s. induction fuel as [|fuel IH]; intros s; [simpl; lia|].
  rewrite finditer_from_S.
  assert (63 * length (match s with "" => [] | String _ s' =>
                         Re.finditer_from fuel pattern s' end)
          ≤ String.length s)%nat as Hadv.
  { destruct s as [|c s]; simpl; [lia|]. specialize (IH s). lia. }
  destruct (Re.match_here (Re.ignorecase pattern) (Re.nodes pattern) s)
    as [[gs r]|] eqn:Hs; [|done].
  apply match_here_pattern_iff in Hs as (t & g & -> & -> & Ht).
  apply script_record_length in Ht.
  rewrite decide_True by (rewrite str_app_length; lia).
  rewrite str_app_length. cbn [length]. specialize (IH r). lia.
Qed.

(** X3.  A match spans at least 63 characters and matches do not overlap:
    a text holds at most one match per 63 characters, and a text shorter
    than that, the empty one included, holds none. *)
Theorem X3_one_match_per_63_characters text :
  (63 * length (Re.finditer pattern text) ≤ String.length text)%nat
  ∧ ((String.length text < 63)%nat → Re.finditer pattern text = []).
Proof.
  pose proof (finditer_from_count (S (String.length text)) text) as Hcount.
  fold (Re.finditer pattern text) in Hcount. split; [done|].
  intros Hshort. destruct (Re.finditer pattern text); [done|].
  simpl in Hcount. lia.
Qed.

End MatchCount.

(** ** What the second walk records, and what it does not *)

Section RecordFacts.

Context `{OsPath}.

Implicit Types (guids : gset string) (ms : list Re.match_obj).


Lemma first_missing_some_inv guids ms x :
  first_missing guids ms = Some x →
  ∃ m g, m ∈ ms ∧ Re.groups m !! 0%nat = Some g ∧ x = Py.lower g ∧ x ∉ guids.
Proof.
  induction ms as [|m ms IH]; simpl; [done|].
  destruct (Re.groups m !! 0%nat) as [g|] eqn:Hg; [|done].
  case_decide as Hin.
  - intros (m' & g' & Hm' & Hrest)%IH. exists m', g'.
    split; [by apply elem_of_cons; right|done].
  - intros [= <-]. exists m, g. split; [by apply elem_of_cons; left|done].
Qed.


(** A record of the second walk comes from a reference record, in a file
    with an asset extension that opens and is read whole, whose guid in
    lower case is not in the set. *)
Lemma recorded_inv (fs : filesystem) guids d n r :
  recorded fs guids (d, n) = Some r →
  Py.endswith_any (Py.lower n) target_exts = true
  ∧ ∃ fh pre t rest G,
      os_open fs (join d n) = inr fh
      ∧ text_of fh = Some (pre +:+ t +:+ rest)
      ∧ script_record t G
      ∧ r = (relpath (join d n) root, Py.lower G)
      ∧ Py.lower G ∉ guids.
Proof.
  unfold recorded. cbn [fst snd].
  destruct (Py.endswith_any _ _); [|done].
  destruct (os_open fs (join d n)) as [e|fh]; [done|].
  destruct (text_of fh) as [text|] eqn:Htext; [|done]. simpl.
  destruct (first_missing _ _) as [x|] eqn:Hx; [|done]. simpl.
  intros [= <-]. split; [done|].
  apply first_missing_some_inv in Hx as (m & g & Hm & Hg & -> & Hno).
  destruct (finditer_pattern_elem _ _ Hm) as (g' & Hg' & _).
  rewrite Hg' in Hg. simplify_eq/=.
  destruct (proj1 (finditer_pattern_iff text g)) as (pre & t & rest & -> & Ht);
    [by exists m|].
  by exists fh, pre, t, rest, g.
Qed.

Lemma hex32_lower g : hex32 g → hex32 (Py.lower g).
Proof.
  intros [Hlen Hg]. split; [by rewrite lower_length|].
  apply (all_chars_lower is_hex_digit); [|done].
  intros c Hc. unfold is_hex_digit. by rewrite lower_hex_digit.
Qed.


End RecordFacts.





(** ** Trimming and splitting *)

Section StripFacts.

Implicit Types (s w x : string).

Lemma lstrip_white w : white w → Py.lstrip w = "".
Proof.
  unfold white. induction w as [|c w IH]; simpl; [done|].
  intros [Hc Hw]%andb_true_iff. rewrite Hc. auto.
Qed.

Lemma lstrip_white_app w s : white w → Py.lstrip (w +:+ s) = Py.lstrip s.
Proof.
  unfold white. induction w as [|c w IH]; [done|].
  intros Hcw. simpl in Hcw. apply andb_true_iff in Hcw as [Hc Hw].
  rewrite str_app_cons. simpl. rewrite Hc. auto.
Qed.

Lemma rstrip_cons c s :
  Py.rstrip (String c s) =
  match Py.rstrip s with
  | "" => if Py.is_space c then "" else String c ""
  | r => String c r
  end.
Proof. reflexivity. Qed.

Lemma rstrip_white w : white w → Py.rstrip w = "".
Proof.
  unfold white. induction w as [|c w IH]; [done|].
  simpl all_chars. intros [Hc Hw]%andb_true_iff.
  by rewrite rstrip_cons, (IH Hw), Hc.
Qed.

Lemma rstrip_app_white s w : white w → Py.rstrip (s +:+ w) = Py.rstrip s.
Proof.
  intros Hw. induction s as [|c s IH].
  - change ("" +:+ w) with w. by rewrite (rstrip_white w Hw).
  - by rewrite str_app_cons, !rstrip_cons, IH.
Qed.

(** What [lstrip] removes is white space, and it stops at the first other
    character. *)
Lemma lstrip_decompose s :
  ∃ w, white w ∧ s = w +:+ Py.lstrip s
       ∧ stops Re.Space true (Py.lstrip s).
Proof.
  induction s as [|c s (w & Hw & Hs & Hstop)].
  - by exists "".
  - simpl. destruct (Py.is_space c) eqn:Hc.
    + exists (String c w). split_and!; [|by rewrite str_app_cons, <- Hs|done].
      unfold white. simpl. by rewrite Hc.
    + exists "". by split_and!.
Qed.

(** What [rstrip] removes is white space. *)
Lemma rstrip_decompose s : ∃ w, white w ∧ s = Py.rstrip s +:+ w.
Proof.
  induction s as [|c s (w & Hw & Hs)].
  - by exists "".
  - rewrite rstrip_cons. destruct (Py.rstrip s) as [|d r] eqn:Hr.
    + destruct (Py.is_space c) eqn:Hc.
      * exists (String c w). split; [|by rewrite Hs at 1].
        unfold white. simpl. by rewrite Hc.
      * exists w. split; [done|]. by rewrite Hs at 1.
    + exists w. split; [done|]. by rewrite Hs at 1.
Qed.

Lemma rstrip_idemp s : Py.rstrip (Py.rstrip s) = Py.rstrip s.
Proof.
  destruct (rstrip_decompose s) as (w & Hw & Hs).
  rewrite Hs at 2. by rewrite rstrip_app_white.
Qed.

(** [rstrip] keeps a first character that is not white space. *)
Lemma rstrip_head c s :
  Py.is_space c = false → ∃ r, Py.rstrip (String c s) = String c r.
Proof.
  intros Hc. rewrite rstrip_cons. destruct (Py.rstrip s); rewrite ?Hc; eauto.
Qed.

Lemma lstrip_stops s : stops Re.Space true s → Py.lstrip s = s.
Proof. destruct s as [|c s]; simpl; [done|]. by intros ->. Qed.

Lemma lstrip_fixed_stops s : Py.lstrip s = s → stops Re.Space true s.
Proof.
  intros Hs. destruct (lstrip_decompose s) as (w & _ & _ & Hstop).
  by rewrite Hs in Hstop.
Qed.

Lemma strip_trimmed s : trimmed (Py.strip s).
Proof.
  unfold trimmed, Py.strip. split; [|apply rstrip_idemp].
  destruct (lstrip_decompose s) as (w & _ & _ & Hstop).
  destruct (Py.lstrip s) as [|c x]; [done|]. simpl in Hstop.
  destruct (rstrip_head c x Hstop) as [r ->]. simpl. by rewrite Hstop.
Qed.

Lemma strip_surrounded w s w' :
  white w → white w' → trimmed s → Py.strip (w +:+ s +:+ w') = s.
Proof.
  intros Hw Hw' [Hl Hr]. unfold Py.strip. rewrite lstrip_white_app by done.
  destruct s as [|c s].
  - change ("" +:+ w') with w'. by rewrite (lstrip_white w' Hw').
  - pose proof (lstrip_fixed_stops _ Hl) as Hc. simpl in Hc.
    rewrite str_app_cons. simpl. rewrite Hc, <- str_app_cons.
    by rewrite rstrip_app_white.
Qed.

Lemma strip_decompose s :
  ∃ w w', white w ∧ white w' ∧ s = w +:+ Py.strip s +:+ w'.
Proof.
  destruct (lstrip_decompose s) as (w & Hw & Hs & _).
  destruct (rstrip_decompose (Py.lstrip s)) as (w' & Hw' & Hs').
  exists w, w'. split_and!; [done..|]. unfold Py.strip.
  by rewrite <- Hs', <- Hs.
Qed.

(** A text without white space is trimmed. *)
Lemma no_space_trimmed s :
  all_chars (λ c, negb (Py.is_space c)) s = true → trimmed s.
Proof.
  intros Hs. split.
  - destruct s as [|c s]; [done|]. simpl in *.
    apply andb_true_iff in Hs as [Hc%negb_true_iff _]. by rewrite Hc.
  - induction s as [|c s IH]; [done|]. simpl in Hs.
    apply andb_true_iff in Hs as [Hc%negb_true_iff Hs].
    rewrite rstrip_cons, (IH Hs), Hc. by destruct s.
Qed.

Lemma hex32_trimmed g : hex32 g → trimmed g.
Proof.
  intros [_ Hg]. apply no_space_trimmed.
  eapply all_chars_impl; [|exact Hg].
  intros c Hc. by rewrite (hex_digit_not_space c Hc).
Qed.

End StripFacts.

(** X6.  [strip] is specified by what it does to a line: every text is
    white space, then its stripped form, then white space; the stripped
    form neither begins nor ends with white space; and a text that
    neither begins nor ends with white space comes back from any white
    space put around it. *)
Theorem X6_strip_removes_surrounding_white_space s :
  (∃ w w', white w ∧ white w' ∧ s = w +:+ Py.strip s +:+ w')
  ∧ trimmed (Py.strip s)
  ∧ (∀ w w', white w → white w' → trimmed s → Py.strip (w +:+ s +:+ w') = s).
Proof.
  split_and!.
  - apply strip_decompose.
  - apply strip_trimmed.
  - intros w w'. apply strip_surrounded.
Qed.

(** ** Sidecars and reports *)

Section SidecarFacts.

Context `{OsPath}.

Lemma collected_set_elem (fs : filesystem) d n g :
  (d, n) ∈ walk_files (os_walk fs root) →
  Py.endswith n ".cs.meta" = true →
  declares fs (join d n) g →
  g ∈ collected_set fs.
Proof.
  intros Hin Hname Hg. unfold collected_set.
  apply elem_of_list_to_set, list_elem_of_omap. exists (d, n).
  split; [done|]. unfold collected. cbn [fst snd]. rewrite Hname.
  by apply declared_declares.
Qed.

Lemma recorded_set_absent (fs : filesystem) rel g :
  (rel, g) ∈ recorded_set fs → g ∉ collected_set fs.
Proof.
  unfold recorded_set. rewrite elem_of_list_to_set, list_elem_of_omap.
  intros ([d n] & _ & Hrec).
  by apply recorded_inv in Hrec as (_ & ? & ? & ? & ? & ? & _ & _ & _ & [= _ ->] & ?).
Qed.

Lemma first_missing_mono (guids guids' : gset string) ms x :
  guids ⊆ guids' →
  first_missing guids' ms = Some x →
  ∃ y, first_missing guids ms = Some y.
Proof.
  intros Hsub. induction ms as [|m ms IH]; simpl; [done|].
  destruct (Re.groups m !! 0%nat) as [g|]; [|done].
  destruct (decide (Py.lower g ∈ guids)) as [Hin|Hno]; [|by eauto].
  rewrite decide_True by by apply Hsub. done.
Qed.

Lemma recorded_mono (fs1 fs2 : filesystem) (guids guids' : gset string) d n r' :
  guids ⊆ guids' →
  os_open fs1 (join d n) = os_open fs2 (join d n) →
  recorded fs2 guids' (d, n) = Some r' →
  ∃ r, recorded fs1 guids (d, n) = Some r ∧ r.1 = r'.1.
Proof.
  intros Hsub Hopen. unfold recorded. cbn [fst snd]. rewrite Hopen.
  destruct (Py.endswith_any _ _); [|done].
  destruct (os_open fs2 (join d n)) as [e|fh]; [done|].
  destruct (text_of fh) as [text|]; [|done]. simpl.
  destruct (first_missing guids' _) as [x|] eqn:Hx; [|done]. simpl.
  intros [= <-]. destruct (first_missing_mono _ _ _ _ Hsub Hx) as [y ->].
  simpl. by eexists.
Qed.

Lemma first_missing_agree (guids guids' : gset string) ms :
  (∀ g, hex32 g → Py.lower g = g → (g ∈ guids ↔ g ∈ guids')) →
  Forall (λ m, ∃ g, Re.groups m = [g] ∧ hex32 g) ms →
  first_missing guids ms = first_missing guids' ms.
Proof.
  intros Hagree. induction 1 as [|m ms (g & Hg & Hhex) _ IH]; simpl; [done|].
  rewrite Hg. simpl.
  pose proof (Hagree _ (hex32_lower _ Hhex) (lower_idemp g)) as Hiff.
  destruct (decide (Py.lower g ∈ guids)) as [Hin|Hno].
  - rewrite decide_True by by apply Hiff. done.
  - rewrite decide_False; [done|]. by rewrite <- Hiff.
Qed.

Lemma list_to_set_omap_same {A B} `{Countable A, Countable B}
    (f : A → option B) (l1 l2 : list A) :
  l1 ⊆ l2 → l2 ⊆ l1 →
  list_to_set (omap f l1) =@{gset B} list_to_set (omap f l2).
Proof.
  intros H12 H21. apply set_eq. intros y.
  rewrite !elem_of_list_to_set, !list_elem_of_omap.
  split; intros (x & Hx & Hy); exists x; (split; [auto|done]).
Qed.

End SidecarFacts.

(** X7.  A guid that a listed sidecar declares, with any white space
    around it on its line, is in [script_guids] at the end of the run as
    it is written, and no file is reported for it. *)
Theorem X7_declared_guid_is_never_reported `{OsPath} (fs : filesystem)
    d n pre w g w' post :
  (d, n) ∈ walk_files (os_walk fs root) →
  Py.endswith n ".cs.meta" = true →
  os_open fs (join d n)
  = inr (readable pre ++ inr ("guid: " +:+ w +:+ g +:+ w') :: post) →
  no_guid_line pre →
  white w → white w' → trimmed g →
  g ∈ script_guids (run fs).2
  ∧ ∀ rel, (rel, g) ∉ missing (run fs).2.
Proof.
  intros Hin Hname Hopen Hpre Hw Hw' Hg.
  unfold run. rewrite main_spec. cbn [snd script_guids missing].
  assert (g ∈ collected_set fs) as Hcoll.
  { apply (collected_set_elem fs d n); [done..|].
    exists pre, (w +:+ g +:+ w'), post. split_and!; [done..|].
    symmetry. apply (strip_surrounded (" " +:+ w)); [|done..].
    unfold white in *. simpl. done. }
  split; [done|]. intros rel Hrel. by apply recorded_set_absent in Hrel.
Qed.

Lemma X7_witness :
  guid_player ∈ script_guids (run (H:=example_path) example_fs).2.
Proof.
  refine (proj1 (X7_declared_guid_is_never_reported (H:=example_path)
    example_fs assets_dir "Player.cs.meta" ["fileFormatVersion: 2
"] "" guid_player "
" (readable ["MonoImporter:
"]) _ _ _ _ _ _ _)).
  - apply (bool_decide_unpack _). vm_compute. exact I.
  - vm_compute. reflexivity.
  - vm_compute. reflexivity.
  - constructor; [reflexivity|constructor].
  - reflexivity.
  - reflexivity.
  - split; reflexivity.
Defined.

(** X8.  Losing sidecars never hides a report.  Take two projects where
    the first run collects no more guids than the second, lists every
    file that the second walk of the other lists, and opens and reads the
    files with an asset extension alike: every file that the second run
    reports is reported by the first run too. *)
Theorem X8_fewer_sidecars_never_hide_a_report `{OsPath}
    (fs1 fs2 : filesystem) rel g2 :
  script_guids (run fs1).2 ⊆ script_guids (run fs2).2 →
  walk_files (os_walk fs2 assets_root) ⊆ walk_files (os_walk fs1 assets_root) →
  Forall (λ e, Py.endswith_any (Py.lower e.2) target_exts = true →
               os_open fs1 (join e.1 e.2) = os_open fs2 (join e.1 e.2))
         (walk_files (os_walk fs2 assets_root)) →
  (rel, g2) ∈ missing (run fs2).2 →
  ∃ g1, (rel, g1) ∈ missing (run fs1).2.
Proof.
  unfold run. rewrite !main_spec. cbn [snd script_guids missing].
  intros Hsub Hwalk Hopen. unfold recorded_set at 1.
  rewrite elem_of_list_to_set, list_elem_of_omap.
  intros ([d n] & Hin & Hrec).
  rewrite Forall_forall in Hopen.
  specialize (Hopen _ Hin (proj1 (recorded_inv _ _ _ _ _ Hrec))).
  cbn [fst snd] in Hopen.
  destruct (recorded_mono fs1 fs2 _ _ d n _ Hsub Hopen Hrec) as ([rel1 g1] & Hrec1 & Hrel).
  simpl in Hrel. subst rel1. exists g1.
  unfold recorded_set. apply elem_of_list_to_set, list_elem_of_omap.
  exists (d, n). split; [by apply Hwalk|done].
Qed.

Lemma X8_witness :
  ∃ g1, ("Assets\Level.UNITY", g1) ∈ missing (run (H:=example_path) example_fs).2.
Proof.
  apply (X8_fewer_sidecars_never_hide_a_report (H:=example_path)
           example_fs example_fs_unlocked "Assets\Level.UNITY" guid_gone).
  - apply (bool_decide_unpack _). vm_compute. exact I.
  - apply (bool_decide_unpack _). vm_compute. exact I.
  - apply (bool_decide_unpack _). vm_compute. exact I.
  - apply (bool_decide_unpack _). vm_compute. exact I.
Defined.

(** X9.  Only guids in lower case count.  Two states with the same
    [missing] whose [script_guids] hold the same strings of 32
    hexadecimal digits in lower case give the same records for every
    file, whatever else the two sets hold. *)
Theorem X9_only_lower_case_guids_count `{OsPath} (fs : filesystem) d n st st' :
  missing st = missing st' →
  (∀ g, hex32 g → Py.lower g = g →
        (g ∈ script_guids st ↔ g ∈ script_guids st')) →
  (scan_file fs d n st).1 = inr tt
  ∧ (scan_file fs d n st').1 = inr tt
  ∧ missing (scan_file fs d n st).2 = missing (scan_file fs d n st').2.
Proof.
  intros Hmiss Hagree. rewrite !scan_file_spec. cbn [fst snd].
  split_and!; [done..|].
  assert (recorded fs (script_guids st) (d, n)
          = recorded fs (script_guids st') (d, n)) as ->.
  { unfold recorded. cbn [fst snd].
    destruct (Py.endswith_any _ _); [|done].
    destruct (os_open fs (join d n)) as [e|fh]; [done|].
    destruct (text_of fh) as [text|]; [|done]. simpl.
    rewrite (first_missing_agree _ (script_guids st') _ Hagree); [done|].
    apply Forall_forall. intros m Hm. by apply finditer_pattern_elem in Hm. }
  destruct (recorded _ _ _); simpl; by rewrite Hmiss.
Qed.

Lemma X9_witness :
  missing (scan_file (H:=example_path) example_fs assets_dir "Level.UNITY"
             example_state).2
  = missing (scan_file (H:=example_path) example_fs assets_dir "Level.UNITY"
               example_state_junk).2.
Proof.
  refine (proj2 (proj2 (X9_only_lower_case_guids_count (H:=example_path)
    example_fs assets_dir "Level.UNITY" example_state example_state_junk _ _))).
  - reflexivity.
  - intros g [Hlen Hhex] Hlow. unfold example_state, example_state_junk.
    cbn [script_guids]. rewrite !elem_of_union, !elem_of_singleton.
    split; [tauto|].
    intros [[[[?|?]|Hg]|Hg]|Hg]; [tauto|tauto|exfalso..].
    + subst g. discriminate Hlen.
    + subst g. discriminate Hlen.
    + subst g. discriminate Hlow.
Defined.

(** X10.  A run depends on which files the walks list, not on how often
    or in what order: two runs over the same files, each of whose walks
    lists every file that the same walk of the other lists, end in the
    same state, output included. *)
Theorem X10_listing_a_file_twice_changes_nothing `{OsPath}
    (fs1 fs2 : filesystem) :
  same_files fs1 fs2 →
  walk_files (os_walk fs1 root) ⊆ walk_files (os_walk fs2 root) →
  walk_files (os_walk fs2 root) ⊆ walk_files (os_walk fs1 root) →
  walk_files (os_walk fs1 assets_root) ⊆ walk_files (os_walk fs2 assets_root) →
  walk_files (os_walk fs2 assets_root) ⊆ walk_files (os_walk fs1 assets_root) →
  run fs1 = run fs2.
Proof.
  intros Hsame Hr12 Hr21 Ha12 Ha21. unfold run. rewrite !main_spec.
  assert (collected_set fs1 = collected_set fs2) as Hcoll.
  { unfold collected_set.
    rewrite (omap_pointwise _ _ _ (collected_same fs1 fs2 Hsame)).
    by apply list_to_set_omap_same. }
  assert (recorded_set fs1 = recorded_set fs2) as Hrec.
  { unfold recorded_set. rewrite Hcoll.
    rewrite (omap_pointwise _ _ _ (recorded_same fs1 fs2 Hsame _)).
    by apply list_to_set_omap_same. }
  by rewrite Hcoll, Hrec.
Qed.

Lemma X10_witness :
  run (H:=example_path) example_fs = run (H:=example_path) example_fs_twice.
Proof.
  apply (X10_listing_a_file_twice_changes_nothing (H:=example_path)
           example_fs example_fs_twice).
  - intros path. reflexivity.
  - apply (bool_decide_unpack _). vm_compute. exact I.
  - apply (bool_decide_unpack _). vm_compute. exact I.
  - apply (bool_decide_unpack _). vm_compute. exact I.
  - apply (bool_decide_unpack _). vm_compute. exact I.
Defined.

(** ** The size of the report *)

Section ReportSize.

Lemma size_list_to_set_le {A} `{Countable A} (l : list A) :
  (size (list_to_set l : gset A) ≤ length l)%nat.
Proof.
  induction l as [|x l IH].
  - change (list_to_set []) with (∅ : gset A). by rewrite size_empty.
  - change (list_to_set (x :: l)) with ({[x]} ∪ list_to_set l : gset A).
    rewrite size_union_alt, size_singleton.
    pose proof (subseteq_size (list_to_set l ∖ {[x]}) (list_to_set l : gset A)
                  (subseteq_difference_l _ _ _ (reflexivity _))) as Hle.
    simpl. lia.
Qed.

Lemma length_omap_le {A B} (f : A → option B) (l : list A) :
  (length (omap f l) ≤ length l)%nat.
Proof.
  induction l as [|x l IH]; [done|]. csimpl.
  destruct (f x); simpl; lia.
Qed.

Lemma length_sorted (s : gset (string * string)) : length (sorted s) = size s.
Proof.
  destruct (sorted_spec s) as (Hperm & _). by rewrite Hperm.
Qed.

Lemma length_report_lines (s : gset (string * string)) :
  length (report_lines s) = max 1 (size s).
Proof.
  unfold report_lines. case_decide as Hs.
  - rewrite length_fmap, length_sorted.
    assert (size s ≠ 0%nat); [|lia].
    intros Hz%size_empty_iff. by apply Hs, leibniz_equiv.
  - subst s. by rewrite size_empty.
Qed.

End ReportSize.

(** X11.  A run prints at least one line, and at most as many lines as
    the second walk lists files, or one line when it lists fewer. *)
Theorem X11_report_size `{OsPath} (fs : filesystem) :
  (1 ≤ length (stdout (run fs).2))%nat
  ∧ (length (stdout (run fs).2)
     ≤ max 1 (length (walk_files (os_walk fs assets_root))))%nat.
Proof.
  unfold run. rewrite main_spec. cbn [snd stdout app].
  rewrite length_report_lines. split; [lia|].
  pose proof (size_list_to_set_le
                (omap (recorded fs (collected_set fs))
                   (walk_files (os_walk fs assets_root)))) as Hsize.
  pose proof (length_omap_le (recorded fs (collected_set fs))
                (walk_files (os_walk fs assets_root))) as Hlen.
  unfold recorded_set. lia.
Qed.

(** X12.  A run does not depend on what the interpreter held before:
    from any state, the script ends with the two sets of a fresh run and
    has added the lines of a fresh run to the output. *)
Theorem X12_run_from_any_state `{OsPath} (fs : filesystem) st :
  main fs st
  = (inr tt,
     mk_state (script_guids (run fs).2) (missing (run fs).2)
       (stdout st ++ stdout (run fs).2)).
Proof. unfold run. by rewrite !main_spec. Qed.

(** X13.  What each part of the script leaves alone.  Scanning a file
    changes neither [script_guids] nor the output and adds at most one
    pair to [missing]; the second walk as a whole keeps [script_guids]
    and the output and only adds to [missing]; the report keeps both sets
    and adds at least one line to the output. *)
Theorem X13_parts_keep_what_is_not_theirs `{OsPath} (fs : filesystem) st :
  (∀ d n,
     script_guids (scan_file fs d n st).2 = script_guids st
     ∧ stdout (scan_file fs d n st).2 = stdout st
     ∧ (missing (scan_file fs d n st).2 = missing st
        ∨ ∃ r, missing (scan_file fs d n st).2 = {[r]} ∪ missing st))
  ∧ (script_guids (scanner fs st).2 = script_guids st
     ∧ stdout (scanner fs st).2 = stdout st
     ∧ missing st ⊆ missing (scanner fs st).2)
  ∧ (script_guids (reporter st).2 = script_guids st
     ∧ missing (reporter st).2 = missing st
     ∧ ∃ lines, lines ≠ [] ∧ stdout (reporter st).2 = stdout st ++ lines).
Proof.
  split_and!.
  - intros d n. rewrite scan_file_spec. cbn [snd].
    destruct (recorded _ _ _) as [r|]; simpl; split_and!; eauto.
  - by rewrite scanner_spec.
  - by rewrite scanner_spec.
  - rewrite scanner_spec. cbn [snd missing]. apply union_subseteq_r.
  - by rewrite reporter_spec.
  - by rewrite reporter_spec.
  - rewrite reporter_spec. cbn [snd stdout]. exists (report_lines (missing st)).
    split; [|done]. intros Hnil. apply (f_equal length) in Hnil.
    rewrite length_report_lines in Hnil. simpl in Hnil. lia.
Qed.

(** ** The guid line and the two tests of the name *)

Section LineFacts.

Implicit Types (s a b x : string).

Lemma split_1_found sep a b :
  char_free sep a → Py.split_1 sep (a +:+ String sep b) = [a; b].
Proof.
  unfold char_free. induction a as [|c a IH]; intros Ha.
  - change ("" +:+ String sep b) with (String sep b). simpl.
    by rewrite decide_True.
  - simpl in Ha. apply orb_false_iff in Ha as [Hc%bool_decide_eq_false Ha].
    rewrite str_app_cons. simpl. rewrite decide_False by done.
    by rewrite (IH Ha).
Qed.

Lemma split_1_absent sep s : char_free sep s → Py.split_1 sep s = [s].
Proof.
  unfold char_free. induction s as [|c s IH]; intros Hs; [done|].
  simpl in Hs. apply orb_false_iff in Hs as [Hc%bool_decide_eq_false Hs].
  simpl. rewrite decide_False by done. by rewrite (IH Hs).
Qed.

(** A suffix no longer than the end of a text is a suffix of that end. *)
Lemma endswith_app_short x y z :
  (String.length z ≤ String.length y)%nat →
  Py.endswith (x +:+ y) z = Py.endswith y z.
Proof.
  intros Hlen. induction x as [|c x IH]; [done|].
  rewrite str_app_cons. simpl. rewrite IH.
  rewrite bool_decide_eq_false_2; [done|].
  intros Heq. apply (f_equal String.length) in Heq.
  simpl in Heq. rewrite str_app_length in Heq. lia.
Qed.

Lemma sidecar_name_is_no_asset n :
  Py.endswith n ".cs.meta" = true →
  Py.endswith_any (Py.lower n) target_exts = false.
Proof.
  intros [b ->]%endswith_inv. rewrite lower_app.
  unfold Py.endswith_any, target_exts. cbn [existsb].
  by rewrite !endswith_app_short by (simpl; lia).
Qed.

End LineFacts.

(** X14.  The subscript on the split line cannot fail where the script
    uses it.  Splitting at the first separator gives the text before it
    and the text after it, so [[1]] is the text after the first
    separator; without a separator the split has one element and [[1]]
    raises [IndexError]; a line that begins with [guid: ] has a colon, so
    the subscript of line 14 returns, and returns what follows [guid:]. *)
Theorem X14_split_subscript (sep : ascii) (s : string) st :
  (char_free sep s → index (Py.split_1 sep s) 1 st = (inl IndexError, st))
  ∧ (∀ a b, s = a +:+ String sep b → char_free sep a →
            index (Py.split_1 sep s) 1 st = (inr b, st))
  ∧ (Py.startswith s "guid: " = true →
     ∃ b, s = "guid:" +:+ b
          ∧ index (Py.split_1 ":" s) 1 st = (inr b, st)).
Proof.
  split_and!.
  - intros Hs. by rewrite split_1_absent.
  - intros a b -> Ha. by rewrite split_1_found.
  - intros [x ->]%startswith_inv. exists (" " +:+ x). split; [done|].
    unfold index. by rewrite split_1_guid_line.
Qed.

(** X15.  No file is read by both walks: a name that passes the test of
    the first walk fails the test of the second, so the second walk
    leaves the state as it was for it; and a name that passes the test of
    the second walk is passed over by the first. *)
Theorem X15_walks_read_different_files `{OsPath} (fs : filesystem) d n st :
  (Py.endswith n ".cs.meta" = true →
   Py.endswith_any (Py.lower n) target_exts = false
   ∧ scan_file fs d n st = (inr tt, st))
  ∧ (Py.endswith_any (Py.lower n) target_exts = true →
     Py.endswith n ".cs.meta" = false
     ∧ collect_file fs d n st = (inr tt, st)).
Proof.
  split.
  - intros Hn%sidecar_name_is_no_asset. split; [done|].
    unfold scan_file. by rewrite Hn.
  - intros Hn. assert (Py.endswith n ".cs.meta" = false) as Hno.
    { destruct (Py.endswith n ".cs.meta") eqn:Hmeta; [|done].
      apply sidecar_name_is_no_asset in Hmeta. congruence. }
    split; [done|]. unfold collect_file. by rewrite Hno.
Qed.

(** X16.  The first walk takes the first guid line even when it has no
    value: the empty string goes into [script_guids], and a later guid
    line of the same file is not read. *)
Theorem X16_guid_line_without_value `{OsPath} (fs : filesystem)
    d n st pre x post :
  Py.endswith n ".cs.meta" = true →
  os_open fs (join d n) = inr (readable pre ++ inr ("guid: " +:+ x) :: post) →
  no_guid_line pre →
  white x →
  collect_file fs d n st = (inr tt, with_guid "" st)
  ∧ collect_lines (readable pre ++ inr ("guid: " +:+ x) :: post) st
    = (inr post, with_guid "" st).
Proof.
  intros Hname Hopen Hpre Hx.
  assert (Py.strip (" " +:+ x) = "") as Hstrip.
  { unfold Py.strip. rewrite (lstrip_white (" " +:+ x)); [done|].
    unfold white in *. simpl. done. }
  split.
  - rewrite collect_file_spec. unfold collected, declared. cbn [fst snd].
    rewrite Hname, Hopen, guid_line_found by done. simpl. by rewrite Hstrip.
  - by rewrite collect_lines_found, Hstrip.
Qed.

Lemma X16_witness :
  run (H:=example_path) blank_guid_fs
  = (inr tt, mk_state {[""]} ∅ ["No missing scripts under Assets"])
  ∧ collect_file (H:=example_path) blank_guid_fs assets_dir "Player.cs.meta"
      (mk_state ∅ ∅ [])
    = (inr tt, with_guid "" (mk_state ∅ ∅ [])).
Proof.
  split; [vm_compute; reflexivity|].
  refine (proj1 (X16_guid_line_without_value (H:=example_path) blank_guid_fs
    assets_dir "Player.cs.meta" (mk_state ∅ ∅ []) ["fileFormatVersion: 2
"] "	
" (readable ["guid: " +:+ guid_player +:+ "
"]) _ _ _ _)).
  - vm_compute. reflexivity.
  - vm_compute. reflexivity.
  - constructor; [reflexivity|constructor].
  - reflexivity.
Defined.
